(** * Control-plane core of the EFS CSI driver: a shallow embedding

    The development follows [pkg/driver/tag_parser.go] (the tag-string parser
    and the access-point provisioner) and
    [pkg/driver/directory_provisioner.go] (the directory provisioner).

    Conventions.
    - A Go [string] is a [string] of Rocq, that is a sequence of bytes.  The
      parser walks [[]rune(raw)]; the three characters it inspects (quote,
      space, colon) are ASCII and never occur inside a multi-byte UTF-8
      sequence, so walking the bytes of a valid UTF-8 string takes the same
      decisions and copies the same content.
    - A Go [int] is a [Z]; the only integers the provisioner handles come out
      of [strconv.Atoi], which keeps them inside the 64-bit range, and no
      arithmetic is done on them.
    - A Go [map[string]string] is a [gmap string string].
    - Calls to collaborators (remote service, mounter, OS client) are answered
      by oracles that see the history of calls, and every call is logged. *)

From Stdlib Require Import ZArith Ascii String List Lia.
From stdpp Require Import gmap strings list fin_maps.

Local Open Scope Z_scope.

(** ** Strings and runes *)

Definition rune := ascii.

(** [[]rune(s)] *)
Definition runes (s : string) : list rune := list_ascii_of_string s.

(** [string(chars)] *)
Definition ofRunes (chars : list rune) : string := string_of_list_ascii chars.

(** [string(c)] for one rune. *)
Definition str1 (c : rune) : string := String c EmptyString.

Definition QUOTE : rune := "'"%char.
Definition SPACE : rune := " "%char.
Definition COLON : rune := ":"%char.

(** ** The tag-string parser ([tag_parser.go], lines 9 to 100) *)

Module TagParser.

(** The two [fmt.Errorf] results of [extractKeyAndValueFromRawPair]. *)
Inductive TagError :=
| ErrUnmatchedQuotes   (* "unmatched quotes in tag string" *)
| ErrEmptyKey.         (* "cannot have empty key" *)

(** The [for] loop of [extractPairsFromRawString]; the state of the loop is
    [result], [accumulator] and [literal]. *)
Fixpoint pairsLoop (chars : list rune) (result : list string)
    (accumulator : string) (literal : bool) : list string * string :=
  match chars with
  | [] => (result, accumulator)
  | c :: rest =>
      if Ascii.eqb c QUOTE then
        pairsLoop rest result (accumulator +:+ str1 c) (negb literal)
      else if Ascii.eqb c SPACE then
        if literal then pairsLoop rest result (accumulator +:+ str1 c) literal
        else pairsLoop rest (result ++ [accumulator]) EmptyString literal
      else pairsLoop rest result (accumulator +:+ str1 c) literal
  end.

Definition extractPairsFromRawString (raw : string) : list string :=
  let '(result, accumulator) := pairsLoop (runes raw) [] EmptyString false in
  if String.eqb accumulator EmptyString then result
  else result ++ [accumulator].

(** The [for] loop of [extractKeyAndValueFromRawPair], started at index [i];
    it returns [key], [literal] and [finalKeyIndex] ([-1] when the loop ran to
    the end without meeting an unquoted colon). *)
Fixpoint keyLoop (chars : list rune) (i : Z) (key : string) (literal : bool)
    : string * bool * Z :=
  match chars with
  | [] => (key, literal, -1)
  | c :: rest =>
      if Ascii.eqb c QUOTE then keyLoop rest (i + 1) key (negb literal)
      else if Ascii.eqb c COLON then
        if literal then keyLoop rest (i + 1) (key +:+ str1 c) literal
        else (key, literal, i)
      else keyLoop rest (i + 1) (key +:+ str1 c) literal
  end.

(** [if len(value) > 0 && value[0] == '\'' { value = value[1:] }] *)
Definition stripLeadingQuote (value : string) : string :=
  match value with
  | String c v => if Ascii.eqb c QUOTE then v else value
  | EmptyString => value
  end.

(** [if len(value) > 0 && value[len(value)-1] == '\'' { value = value[:len(value)-1] }] *)
Definition stripTrailingQuote (value : string) : string :=
  match rev (runes value) with
  | c :: v => if Ascii.eqb c QUOTE then ofRunes (rev v) else value
  | [] => value
  end.

Definition extractKeyAndValueFromRawPair (pair : string)
    : TagError + (string * string) :=
  let chars := runes pair in
  let '(key, literal, finalKeyIndex) := keyLoop chars 0 EmptyString false in
  if literal then inl ErrUnmatchedQuotes
  else if String.eqb key EmptyString then inl ErrEmptyKey
  else
    let value := ofRunes (drop (Z.to_nat (finalKeyIndex + 1)) chars) in
    inr (key, stripTrailingQuote (stripLeadingQuote value)).

(** The [for _, pair := range tagsSplit] loop of [parseTagsFromStr] ([pair]
    is written [pair_], the name being taken by the pairing constructor). *)
Fixpoint tagsLoop (tagsSplit : list string) (m : gmap string string)
    : gmap string string :=
  match tagsSplit with
  | [] => m
  | pair_ :: rest =>
      match extractKeyAndValueFromRawPair pair_ with
      | inl _ => tagsLoop rest m                 (* warning, [continue] *)
      | inr (k, v) => tagsLoop rest (<[k := v]> m)
      end
  end.

(** No statement of the body can panic (every index is guarded), so the
    deferred [recover] never fires and is not modelled. *)
Definition parseTagsFromStr (tagStr : string) : gmap string string :=
  if String.eqb tagStr EmptyString then ∅
  else tagsLoop (extractPairsFromRawString tagStr) ∅.

End TagParser.

(** ** Functions of the Go standard library that the provisioners call *)

Module GoLib.

Definition digitOf (base : Z) (c : ascii) : option Z :=
  let n := Z.of_N (N_of_ascii c) in
  if (48 <=? n) && (n <? 48 + base) then Some (n - 48) else None.

(** The value of a non-signed digit string in base [base] (at most 10),
    [None] when a character is not a digit of that base. *)
Fixpoint digitsValue (base : Z) (s : string) (acc : Z) : option Z :=
  match s with
  | EmptyString => Some acc
  | String c rest =>
      match digitOf base c with
      | Some d => digitsValue base rest (acc * base + d)
      | None => None
      end
  end.

(** [strconv.Atoi] on a 64-bit platform: an optional sign, then at least one
    decimal digit and nothing else, and a value that fits an [int]; [None]
    stands for a non-nil [error]. *)
Definition Atoi (s : string) : option Z :=
  let '(neg, body) :=
    match s with
    | String c rest =>
        if Ascii.eqb c "-" then (true, rest)
        else if Ascii.eqb c "+" then (false, rest)
        else (false, s)
    | EmptyString => (false, s)
    end in
  match body with
  | EmptyString => None
  | _ =>
      match digitsValue 10 body 0 with
      | Some n =>
          let v := if neg : bool then - n else n in
          if (- 2 ^ 63 <=? v) && (v <=? 2 ^ 63 - 1) then Some v else None
      | None => None
      end
  end.

(** [strconv.ParseUint(s, 8, 32)]: at least one octal digit and nothing
    else (no sign, no prefix, no underscore since the base is given), and a
    value below [2^32]. *)
Definition ParseUint8_32 (s : string) : option Z :=
  match s with
  | EmptyString => None
  | _ =>
      match digitsValue 8 s 0 with
      | Some n => if n <? 2 ^ 32 then Some n else None
      | None => None
      end
  end.

Definition byteOf (c : ascii) : Z := Z.of_N (N_of_ascii c).

(** [strings.TrimSpace(s) == ""]: every character of [s] is white space in
    the sense of [unicode.IsSpace].  The string is read as UTF-8: the six
    ASCII spaces, U+0085, U+00A0, U+1680, U+2000 to U+200A, U+2028, U+2029,
    U+202F, U+205F and U+3000. *)
Fixpoint isBlank (s : string) : bool :=
  match s with
  | EmptyString => true
  | String c1 r1 =>
      let b1 := byteOf c1 in
      if ((9 <=? b1) && (b1 <=? 13)) || (b1 =? 32) then isBlank r1
      else
        match r1 with
        | String c2 r2 =>
            let b2 := byteOf c2 in
            if (b1 =? 194) && ((b2 =? 133) || (b2 =? 160)) then isBlank r2
            else
              match r2 with
              | String c3 r3 =>
                  let b3 := byteOf c3 in
                  if ((b1 =? 225) && (b2 =? 154) && (b3 =? 128))
                     || ((b1 =? 226) && (b2 =? 128)
                         && (((128 <=? b3) && (b3 <=? 138))
                             || (b3 =? 168) || (b3 =? 169) || (b3 =? 175)))
                     || ((b1 =? 226) && (b2 =? 129) && (b3 =? 159))
                     || ((b1 =? 227) && (b2 =? 128) && (b3 =? 128))
                  then isBlank r3
                  else false
              | EmptyString => false
              end
        | EmptyString => false
        end
  end.

End GoLib.

Import GoLib.

(** ** Constants of the driver *)

(** Modelled from the spec: the names of the request parameters and secrets,
    the default identity range, the default tag and the prefix of temporary
    mount-points are declared in a file of the driver that is not among the files
    embedded here.  The parameter names and the two defaults are those of
    the storage-class example ([examples/.../directories/README.md]); no
    statement below depends on the value of any of them. *)
Module Const.
Definition FsId : string := "fileSystemId".
Definition Uid : string := "uid".
Definition Gid : string := "gid".
Definition GidMin : string := "gidRangeStart".
Definition GidMax : string := "gidRangeEnd".
Definition DirectoryPerms : string := "directoryPerms".
Definition BasePath : string := "basePath".
Definition AzName : string := "az".
Definition RoleArn : string := "awsRoleArn".
Definition MountTargetIp : string := "mounttargetip".
Definition DefaultTagKey : string := "efs.csi.aws.com/cluster".
Definition DefaultTagValue : string := "true".
Definition TempMountPathPrefix : string := "/var/lib/csi/pv".
Definition DefaultGidMin : Z := 50000.
Definition DefaultGidMax : Z := 7000000.
End Const.

Import Const.

(** ** Requests, results and errors *)

(** The [codes] of gRPC that the provisioners return, and [RangeExhausted]
    for the failure of the identity allocator (section 7 of the
    specification). *)
Inductive Code :=
| InvalidArgument | Unauthenticated | AlreadyExists | Internal | RangeExhausted.

(** [status.Errorf(code, format, ...)]; the message kept is the format
    string of the call, which tells the return statements apart. *)
Record Status := mkStatus { code : Code; format : string }.

(** The sentinel errors of package [cloud], and any other error. *)
Inductive CloudError :=
| ErrAccessDenied | ErrNotFound | ErrAlreadyExists | ErrOther (msg : string).

(** An [error] of the mounter or of the OS client. *)
Definition OpaqueError := string.

Record CreateVolumeRequest := {
  Name : string;
  RequiredBytes : Z;             (* [GetCapacityRange().GetRequiredBytes()] *)
  Parameters : gmap string string;
  Secrets : gmap string string
}.

Record DeleteVolumeRequest := {
  DelVolumeId : string;          (* [GetVolumeId()] *)
  DelSecrets : gmap string string
}.

Record Volume := {
  CapacityBytes : Z;
  VolumeId : string;
  VolumeContext : gmap string string
}.

Record AccessPointOptions := {
  CapacityGiB : Z;
  Tags : gmap string string;
  FileSystemId : string;
  OptDirectoryPerms : string;
  OptUid : Z;
  OptGid : Z;
  DirectoryPath : string
}.

Record AccessPoint := { AccessPointId : string }.
Record MountTarget := { IPAddress : string }.

(** ** Collaborators: every call is an event, answered from the history *)

Inductive Event :=
| EvNewCloudWithRole (roleArn : string) (ok : bool)
| EvDescribeFileSystem (fsId : string) (r : option CloudError)
| EvGetNextGid (fsId : string) (gidMin gidMax : Z) (r : Status + Z)
| EvReleaseGid (fsId : string) (gid : Z)
| EvCreateAccessPoint (volName : string) (opts : AccessPointOptions)
    (r : CloudError + AccessPoint)
| EvDescribeMountTargets (fsId az : string) (r : CloudError + MountTarget)
| EvGetCloud (r : option Status)
| EvGetMountOptions (fsId roleArn : string) (r : Status + list string)
| EvUuidNew (id : string)
| EvMakeDir (path : string) (r : option OpaqueError)
| EvMount (source target fstype : string) (options : list string)
    (r : option OpaqueError)
| EvUnmount (target : string) (r : option OpaqueError)
| EvMkDirAllWithPerms (path : string) (perms uid gid : Z)
    (r : option OpaqueError)
| EvRemove (path : string) (r : option OpaqueError)
| EvRemoveAll (path : string) (r : option OpaqueError).

Abbreviation History := (list Event).

(** [cloud.Cloud], as far as the provisioners use it. *)
Record Cloud := {
  DescribeFileSystem : History -> string -> option CloudError;
  CreateAccessPoint :
    History -> string -> AccessPointOptions -> CloudError + AccessPoint;
  DescribeMountTargets : History -> string -> string -> CloudError + MountTarget
}.

(** The [Mounter] interface. *)
Record Mounter := {
  MakeDir : History -> string -> option OpaqueError;
  Mount :
    History -> string -> string -> string -> list string -> option OpaqueError;
  Unmount : History -> string -> option OpaqueError
}.

(** The [OsClient] interface, declared with its two test doubles. *)
Record OsClient := {
  MkDirAllWithPerms : History -> string -> Z -> Z -> Z -> option OpaqueError;
  Remove : History -> string -> option OpaqueError;
  RemoveAll : History -> string -> option OpaqueError
}.

(** [FakeOsClient]: every method returns [nil]. *)
Definition FakeOsClient : OsClient := {|
  MkDirAllWithPerms := fun _ _ _ _ _ => None;
  Remove := fun _ _ => None;
  RemoveAll := fun _ _ => None
|}.

(** [BrokenOsClient]: every method returns [&os.PathError{}]. *)
Definition BrokenOsClient : OsClient := {|
  MkDirAllWithPerms := fun _ _ _ _ _ => Some "os.PathError"%string;
  Remove := fun _ _ => Some "os.PathError"%string;
  RemoveAll := fun _ _ => Some "os.PathError"%string
|}.

(** What lies outside the two provisioners: [cloud.NewCloudWithRole],
    [uuid.New().String()], [path.Join] on two elements, and the two helpers
    [getCloud] and [getMountOptions] of the directory provisioner, which are
    declared in another file of the driver and are taken here as they are
    called: an answer that depends on the history of the calls. *)
Record World := {
  NewCloudWithRole : History -> string -> option Cloud;
  uuidNew : History -> string;
  pathJoin : string -> string -> string;
  dirGetCloud :
    History -> option Cloud -> gmap string string
    -> Status + (option Cloud * string);
  dirGetMountOptions :
    History -> option Cloud -> string -> string -> Status + list string
}.

(** ** The identity range allocator *)

(** Modelled from the spec: [GidAllocator], with its methods [getNextGid] and
    [releaseGid], is declared in a file of the driver that is not among the
    files embedded here; only the two calls in [Provision] are.  Section 4.2 of
    the specification: one ledger of allocated integers per filesystem id,
    created on first access; [acquire] returns the smallest integer of
    [[min, max]] that is not allocated, and fails with [RangeExhausted] when
    there is none; [release] marks the integer free and is a silent no-op on
    an integer or a filesystem id it does not know.  Each operation is one
    atomic transition of the ledger (access is serialized). *)
Module Allocator.

Abbreviation GidAllocator := (gmap string (gset Z)).

Definition heldGids (g : GidAllocator) (fsId : string) : gset Z :=
  default ∅ (g !! fsId).

(** The smallest integer from [lo] on, among [fuel] consecutive ones, that
    is not in [held]. *)
Fixpoint firstFree (held : gset Z) (lo : Z) (fuel : nat) : option Z :=
  match fuel with
  | O => None
  | S n => if decide (lo ∈ held) then firstFree held (lo + 1) n else Some lo
  end.

Definition getNextGid (g : GidAllocator) (fsId : string) (gidMin gidMax : Z)
    : (Status + Z) * GidAllocator :=
  let held := heldGids g fsId in
  match firstFree held gidMin (Z.to_nat (gidMax - gidMin + 1)) with
  | Some id => (inr id, <[fsId := {[id]} ∪ held]> g)
  | None =>
      (inl (mkStatus RangeExhausted "no free id in the range"),
       <[fsId := held]> g)
  end.

Definition releaseGid (g : GidAllocator) (fsId : string) (gid : Z)
    : GidAllocator :=
  match g !! fsId with
  | Some held => <[fsId := held ∖ {[gid]}]> g
  | None => g
  end.

(** One operation of a client of the allocator on a filesystem id, and the
    run of a sequence of them over a fixed range; the run collects what the
    acquisitions returned. *)
Inductive Op := Acquire | Release (gid : Z).

Fixpoint runOps (g : GidAllocator) (fsId : string) (gidMin gidMax : Z)
    (ops : list Op) : GidAllocator * list (Status + Z) :=
  match ops with
  | [] => (g, [])
  | Acquire :: rest =>
      let '(r, g') := getNextGid g fsId gidMin gidMax in
      let '(g'', rs) := runOps g' fsId gidMin gidMax rest in
      (g'', r :: rs)
  | Release gid :: rest => runOps (releaseGid g fsId gid) fsId gidMin gidMax rest
  end.

End Allocator.

Import Allocator.

(** ** The volume identifier *)

Module VolumeIdCodec.

(** The access-point form, as [AccessPointProvisioner.Provision] builds it:
    [FileSystemId + "::" + AccessPointId]. *)
Definition encodeAccessPoint (fileSystemId accessPointId : string) : string :=
  fileSystemId +:+ "::" +:+ accessPointId.

(** The directory form, as [DirectoryProvisioner.Provision] builds it:
    [fileSystemId + ":" + provisionedPath]. *)
Definition encodeDirectory (fileSystemId subPath : string) : string :=
  fileSystemId +:+ ":" +:+ subPath.

(** The string before the first colon and the string after it. *)
Fixpoint cutAtColon (s : string) : option (string * string) :=
  match s with
  | EmptyString => None
  | String c rest =>
      if Ascii.eqb c COLON then Some (EmptyString, rest)
      else
        match cutAtColon rest with
        | Some (before, after) => Some (String c before, after)
        | None => None
        end
  end.

(** Modelled from the spec: [parseVolumeId] is declared in a file of the
    driver that is not among the files embedded here; only its two callers
    are.  Section 3 of the specification: the identifier is
    [<filesystemId>::<accessPointId>] or [<filesystemId>:<subPath>], the
    decoder tells the two forms apart by the separator (two colons or one)
    and returns [(filesystemId, subPath, accessPointId)], the field that does
    not apply being empty.  Both callers drop the fourth result, the error,
    which is left out. *)
Definition parseVolumeId (volumeId : string) : string * string * string :=
  match cutAtColon volumeId with
  | None => (volumeId, EmptyString, EmptyString)
  | Some (fileSystemId, rest) =>
      match rest with
      | String c accessPointId =>
          if Ascii.eqb c COLON then (fileSystemId, EmptyString, accessPointId)
          else (fileSystemId, rest, EmptyString)
      | EmptyString => (fileSystemId, EmptyString, EmptyString)
      end
  end.

End VolumeIdCodec.

Import VolumeIdCodec.

(** ** Calls with effects: a state and error monad *)

(** The state a call runs in: the ledgers of the shared allocator and the
    history of the calls made to collaborators. *)
Record State := mkState { gids : GidAllocator; trace : History }.

(** A computation either returns with an error status ([inl], the
    [return nil, status.Errorf(...)] of the source) or goes on with a value. *)
Definition M (A : Type) : Type := State -> (Status + A) * State.

Definition ret {A} (x : A) : M A := fun st => (inr x, st).

Definition throw {A} (c : Code) (fmt : string) : M A :=
  fun st => (inl (mkStatus c fmt), st).

Definition throwStatus {A} (e : Status) : M A := fun st => (inl e, st).

Definition bind {A B} (m : M A) (k : A -> M B) : M B :=
  fun st =>
    match m st with
    | (inl e, st') => (inl e, st')
    | (inr x, st') => k x st'
    end.

#[global] Instance M_ret : MRet M := @ret.
#[global] Instance M_bind : MBind M := fun A B k m => bind m k.

(** A pure step that may fail. *)
Definition liftE {A} (r : Status + A) : M A := fun st => (r, st).

(** A call to a collaborator: it is answered from the history, and the event
    [ev answer] is appended to the history. *)
Definition call {R} (oracle : History -> R) (ev : R -> Event) : M R :=
  fun st =>
    let r := oracle (trace st) in
    (inr r, mkState (gids st) (trace st ++ [ev r])).

(** [defer]: [after] runs on the way out of [body] whatever its outcome, sees
    the result about to be returned and may replace it. *)
Definition withDefer {A} (body : M A) (after : Status + A -> M A) : M A :=
  fun st => let '(e, st') := body st in after e st'.

(** The two methods of the allocator, on the shared state. *)
Definition getNextGidM (fsId : string) (gidMin gidMax : Z) : M (Status + Z) :=
  fun st =>
    let '(r, g') := getNextGid (gids st) fsId gidMin gidMax in
    (inr r, mkState g' (trace st ++ [EvGetNextGid fsId gidMin gidMax r])).

Definition releaseGidM (fsId : string) (gid : Z) : M unit :=
  fun st =>
    (inr tt, mkState (releaseGid (gids st) fsId gid)
                     (trace st ++ [EvReleaseGid fsId gid])).

(** The events a call added to the history. *)
Definition newEvents (st st' : State) : History :=
  drop (length (trace st)) (trace st').

(** ** The access-point provisioner ([tag_parser.go], lines 121 to 329) *)

Module AccessPointProvisioner.

Record AccessPointProvisioner := {
  tags : gmap string string;
  cloud : Cloud
  (* [gidAllocator] is a pointer to the shared allocator: [gids] of the
     state; [deleteAccessPointRootDir] and [mounter] are read by [Delete]
     only. *)
}.

(** [a.getCloud(secrets)] *)
Definition getCloud (w : World) (a : AccessPointProvisioner)
    (secrets : gmap string string) : M (Cloud * string) :=
  let roleArn := default EmptyString (secrets !! RoleArn) in
  if negb (String.eqb roleArn EmptyString) then
    r ← call (fun h => NewCloudWithRole w h roleArn)
             (fun r => EvNewCloudWithRole roleArn (bool_decide (is_Some r)));
    match r with
    | None =>
        throw Unauthenticated
          "Unable to initialize aws cloud: %v. Please verify role has the correct AWS permissions for cross account mount"
    | Some localCloud => mret (localCloud, roleArn)
    end
  else mret (cloud a, roleArn).

(** Lines 180 to 187. *)
Definition checkFsId (volumeParams : gmap string string) : Status + string :=
  match volumeParams !! FsId with
  | Some value =>
      if isBlank value
      then inl (mkStatus InvalidArgument "Parameter %v cannot be empty")
      else inr value
  | None => inl (mkStatus InvalidArgument "Missing %v parameter")
  end.

(** Lines 189 to 198: [uid] starts at [-1]. *)
Definition checkUid (volumeParams : gmap string string) : Status + Z :=
  match volumeParams !! Uid with
  | Some value =>
      match Atoi value with
      | None => inl (mkStatus InvalidArgument "Failed to parse invalid %v: %v")
      | Some uid =>
          if uid <? 0
          then inl (mkStatus InvalidArgument "%v must be greater or equal than 0")
          else inr uid
      end
  | None => inr (-1)
  end.

(** Lines 200 to 209: [gid] starts at [-1]; the test after the parse reads
    [uid], as the source does. *)
Definition checkGid (volumeParams : gmap string string) (uid : Z)
    : Status + Z :=
  match volumeParams !! Gid with
  | Some value =>
      match Atoi value with
      | None => inl (mkStatus InvalidArgument "Failed to parse invalid %v: %v")
      | Some gid =>
          if uid <? 0
          then inl (mkStatus InvalidArgument "%v must be greater or equal than 0")
          else inr gid
      end
  | None => inr (-1)
  end.

(** Lines 211 to 219: [gidMin] is [0] until the parameter sets it. *)
Definition checkGidMin (volumeParams : gmap string string) : Status + Z :=
  match volumeParams !! GidMin with
  | Some value =>
      match Atoi value with
      | None => inl (mkStatus InvalidArgument "Failed to parse invalid %v: %v")
      | Some gidMin =>
          if gidMin <=? 0
          then inl (mkStatus InvalidArgument "%v must be greater than 0")
          else inr gidMin
      end
  | None => inr 0
  end.

(** Lines 221 to 238. *)
Definition checkGidMax (volumeParams : gmap string string) (gidMin : Z)
    : Status + Z :=
  match volumeParams !! GidMax with
  | Some value =>
      if gidMin =? 0
      then inl (mkStatus InvalidArgument "Missing %v parameter")
      else
        match Atoi value with
        | None =>
            inl (mkStatus InvalidArgument "Failed to parse invalid %v: %v")
        | Some gidMax =>
            if gidMax <=? gidMin
            then inl (mkStatus InvalidArgument "%v must be greater than %v")
            else inr gidMax
        end
  | None =>
      if negb (gidMin =? 0)
      then inl (mkStatus InvalidArgument "Missing %v parameter")
      else inr 0
  end.

(** Lines 240 to 244. *)
Definition defaultRange (gidMin gidMax : Z) : Z * Z :=
  if (gidMin =? 0) && (gidMax =? 0) then (DefaultGidMin, DefaultGidMax)
  else (gidMin, gidMax).

(** Lines 279 to 291: the identity is drawn when [uid] or [gid] still holds
    [-1], and fills those of the two that do.  The result is
    [(uid, gid)]. *)
Definition resolveIdentity (fsId : string) (gidMin gidMax uid gid : Z)
    : M (Z * Z) :=
  allocatedGid ←
    (if (uid =? -1) || (gid =? -1) then
       r ← getNextGidM fsId gidMin gidMax;
       match r with
       | inl err => throwStatus err
       | inr allocatedGid => mret allocatedGid
       end
     else mret 0);
  let uid := if uid =? -1 then allocatedGid else uid in
  let gid := if gid =? -1 then allocatedGid else gid in
  mret (uid, gid).

(** Lines 300 to 329: the remote creation, the release of [gid] when it
    fails, and the volume that is returned. *)
Definition createRemote (localCloud : Cloud) (roleArn azName volName : string)
    (volSize : Z) (opts : AccessPointOptions) : M Volume :=
  let fsId := FileSystemId opts in
  r ← call (fun h => CreateAccessPoint localCloud h volName opts)
           (EvCreateAccessPoint volName opts);
  match r with
  | inl err =>
      releaseGidM fsId (OptGid opts);;
      match err with
      | ErrAccessDenied =>
          throw Unauthenticated
            "Access Denied. Please ensure you have the right AWS permissions: %v"
      | ErrAlreadyExists => throw AlreadyExists "Access Point already exists"
      | _ =>
          throw Internal "Failed to create Access point in File System %v : %v"
      end
  | inr accessPointId =>
      volContext ←
        (if negb (String.eqb roleArn EmptyString) then
           r ← call (fun h => DescribeMountTargets localCloud h fsId azName)
                    (EvDescribeMountTargets fsId azName);
           match r with
           | inl _ => mret (∅ : gmap string string)    (* warning only *)
           | inr mountTarget => mret {[ MountTargetIp := IPAddress mountTarget ]}
           end
         else mret ∅);
      mret {| CapacityBytes := volSize;
              VolumeId := encodeAccessPoint fsId (AccessPointId accessPointId);
              VolumeContext := volContext |}
  end.

(** What the validation of the request (lines 142 to 261) hands to the rest
    of [Provision]. *)
Record Validated := {
  vFsId : string;
  vUid : Z;
  vGid : Z;
  vGidMin : Z;
  vGidMax : Z;
  vDirectoryPerms : string;
  vBasePath : string;
  vAzName : string
}.

(** Lines 142 to 261: no collaborator is called before the request is
    validated, so this part is a function of the request. *)
Definition validateParams (req : CreateVolumeRequest) : Status + Validated :=
  let volumeParams := Parameters req in
  if String.eqb (Name req) EmptyString then
    inl (mkStatus InvalidArgument "Volume name not provided")
  else
    match checkFsId volumeParams with
    | inl e => inl e
    | inr fsId =>
    match checkUid volumeParams with
    | inl e => inl e
    | inr uid =>
    match checkGid volumeParams uid with
    | inl e => inl e
    | inr gid =>
    match checkGidMin volumeParams with
    | inl e => inl e
    | inr gidMin =>
    match checkGidMax volumeParams gidMin with
    | inl e => inl e
    | inr gidMax =>
        let '(gidMin, gidMax) := defaultRange gidMin gidMax in
        inr {| vFsId := fsId; vUid := uid; vGid := gid;
               vGidMin := gidMin; vGidMax := gidMax;
               vDirectoryPerms :=
                 default EmptyString (volumeParams !! DirectoryPerms);
               vBasePath := default EmptyString (volumeParams !! BasePath);
               vAzName := default EmptyString (volumeParams !! AzName) |}
    end end end end end.

(** Lines 163 to 178 and 293 to 298: the options of the remote creation.
    The tags are the default tag with the tags of the provisioner laid over
    it. *)
Definition optionsOf (a : AccessPointProvisioner) (req : CreateVolumeRequest)
    (v : Validated) (uid gid : Z) : AccessPointOptions :=
  {| CapacityGiB := RequiredBytes req;
     Tags := tags a ∪ {[ DefaultTagKey := DefaultTagValue ]};
     FileSystemId := vFsId v;
     OptDirectoryPerms := vDirectoryPerms v;
     OptUid := uid;
     OptGid := gid;
     DirectoryPath := vBasePath v +:+ "/" +:+ Name req |}.

(** Lines 279 to 329, once the filesystem is known to exist. *)
Definition allocateAndCreate (a : AccessPointProvisioner)
    (req : CreateVolumeRequest) (v : Validated) (localCloud : Cloud)
    (roleArn : string) : M Volume :=
  '(uid, gid) ←
    resolveIdentity (vFsId v) (vGidMin v) (vGidMax v) (vUid v) (vGid v);
  createRemote localCloud roleArn (vAzName v) (Name req) (RequiredBytes req)
    (optionsOf a req v uid gid).

Definition Provision (w : World) (a : AccessPointProvisioner)
    (req : CreateVolumeRequest) : M Volume :=
  v ← liftE (validateParams req);
  '(localCloud, roleArn) ← getCloud w a (Secrets req);
  r ← call (fun h => DescribeFileSystem localCloud h (vFsId v))
           (EvDescribeFileSystem (vFsId v));
  match r with
  | Some ErrAccessDenied =>
      throw Unauthenticated
        "Access Denied. Please ensure you have the right AWS permissions: %v"
  | Some ErrNotFound => throw InvalidArgument "File System does not exist: %v"
  | Some _ => throw Internal "Failed to fetch File System info: %v"
  | None => allocateAndCreate a req v localCloud roleArn
  end.

End AccessPointProvisioner.

(** ** The directory provisioner ([directory_provisioner.go]) *)

Module DirectoryProvisioner.

Record DirectoryProvisioner := {
  mounter : Mounter;
  cloud : option Cloud;          (* [nil] in the tests *)
  osClient : OsClient;
  deleteProvisionedDir : bool
}.

(** Lines 41 to 50 of [Provision], 108 to 118 of [Delete]: the credentials,
    the mount options and the name of the temporary mount-point. *)
Definition prepare (w : World) (d : DirectoryProvisioner)
    (secrets : gmap string string) (fileSystemId : string)
    : M (list string * string) :=
  r ← call (fun h => dirGetCloud w h (cloud d) secrets)
           (fun r => EvGetCloud (match r with inl e => Some e | inr _ => None end));
  '(localCloud, roleArn) ← liftE r;
  r ← call (fun h => dirGetMountOptions w h localCloud fileSystemId roleArn)
           (EvGetMountOptions fileSystemId roleArn);
  mountOptions ← liftE r;
  id ← call (uuidNew w) EvUuidNew;
  mret (mountOptions, TempMountPathPrefix +:+ "/" +:+ id).

(** Lines 66 to 73: [0755] unless the parameter parses as an octal number. *)
Definition permsOf (volumeParams : gmap string string) : Z :=
  match volumeParams !! DirectoryPerms with
  | Some value =>
      match ParseUint8_32 value with
      | Some parsedPerms => parsedPerms
      | None => 493
      end
  | None => 493
  end.

Definition Provision (w : World) (d : DirectoryProvisioner)
    (req : CreateVolumeRequest) (uid gid : Z) : M Volume :=
  let volumeParams := Parameters req in
  fileSystemId ←
    match volumeParams !! FsId with
    | Some value =>
        if isBlank value
        then throw InvalidArgument "Parameter %v cannot be empty"
        else mret value
    | None => throw InvalidArgument "Missing %v parameter"
    end;
  '(mountOptions, target) ← prepare w d (Secrets req) fileSystemId;
  r ← call (fun h => MakeDir (mounter d) h target) (EvMakeDir target);
  match r with
  | Some _ => throw Internal "Could not create dir %q: %v"
  | None =>
      r ← call (fun h => Mount (mounter d) h fileSystemId target "efs" mountOptions)
               (EvMount fileSystemId target "efs" mountOptions);
      match r with
      | None =>
          let basePath := default EmptyString (volumeParams !! BasePath) in
          let rootDirName := Name req in
          let provisionedPath := basePath +:+ "/" +:+ rootDirName in
          let perms := permsOf volumeParams in
          let provisionedDirectory := pathJoin w target provisionedPath in
          r ← call (fun h => MkDirAllWithPerms (osClient d) h
                               provisionedDirectory perms uid gid)
                   (EvMkDirAllWithPerms provisionedDirectory perms uid gid);
          match r with
          | Some _ => throw Internal "Could not provision directory: %v"
          | None =>
              r ← call (fun h => Unmount (mounter d) h target) (EvUnmount target);
              match r with
              | Some _ => throw Internal "Could not unmount %q: %v"
              | None =>
                  r ← call (fun h => RemoveAll (osClient d) h target)
                           (EvRemoveAll target);
                  match r with
                  | Some _ => throw Internal "Could not delete %q: %v"
                  | None =>
                      mret {| CapacityBytes := RequiredBytes req;
                              VolumeId :=
                                encodeDirectory fileSystemId provisionedPath;
                              VolumeContext := ∅ |}
                  end
              end
          end
      | Some _ => throw Internal "Could not mount %q at %q: %v"
      end
  end.

(** The first [defer] of [Delete] (lines 123 to 127). *)
Definition deferredUnmount (d : DirectoryProvisioner) (target : string)
    (e : Status + unit) : M unit :=
  r ← call (fun h => Unmount (mounter d) h target) (EvUnmount target);
  match r with
  | Some _ => throw Internal "Could not unmount %q: %v"
  | None => liftE e
  end.

(** The second [defer] of [Delete] (lines 129 to 133). *)
Definition deferredRemoveAll (d : DirectoryProvisioner) (target : string)
    (e : Status + unit) : M unit :=
  r ← call (fun h => RemoveAll (osClient d) h target) (EvRemoveAll target);
  match r with
  | Some _ => throw Internal "Could not delete %q: %v"
  | None => liftE e
  end.

(** Lines 135 to 143 of [Delete], which run once both [defer]s are set. *)
Definition mountAndRemove (d : DirectoryProvisioner)
    (fileSystemId target subpath : string) (mountOptions : list string)
    : M unit :=
  r ← call (fun h => Mount (mounter d) h fileSystemId target "efs" mountOptions)
           (EvMount fileSystemId target "efs" mountOptions);
  match r with
  | Some _ =>
      _ ← call (fun h => Remove (osClient d) h target) (EvRemove target);
      throw Internal "Could not mount %q at %q: %v"
  | None =>
      r ← call (fun h => RemoveAll (osClient d) h (target +:+ subpath))
               (EvRemoveAll (target +:+ subpath));
      match r with
      | Some _ => throw Internal "Could not delete directory %q: %v"
      | None => mret tt
      end
  end.

(** [Delete] returns an [error]: [inr tt] is [nil].  Deferred calls run in
    the reverse order of their [defer] statements: the removal of the
    mount-point first, the unmount last. *)
Definition Delete (w : World) (d : DirectoryProvisioner)
    (req : DeleteVolumeRequest) : M unit :=
  if negb (deleteProvisionedDir d) then mret tt
  else
    let '(fileSystemId, subpath, _) := parseVolumeId (DelVolumeId req) in
    '(mountOptions, target) ← prepare w d (DelSecrets req) fileSystemId;
    r ← call (fun h => MakeDir (mounter d) h target) (EvMakeDir target);
    match r with
    | Some _ => throw Internal "Could not create dir %q: %v"
    | None =>
        withDefer
          (withDefer
             (mountAndRemove d fileSystemId target subpath mountOptions)
             (deferredRemoveAll d target))
          (deferredUnmount d target)
    end.

End DirectoryProvisioner.

(** ** Collaborators of the tests *)

Module Mocks.

(** A remote service that knows every filesystem and answers [create] to
    [CreateAccessPoint], as the mock of the controller tests does. *)
Definition mockCloud (create : CloudError + AccessPoint) : Cloud := {|
  DescribeFileSystem := fun _ _ => None;
  CreateAccessPoint := fun _ _ _ => create;
  DescribeMountTargets := fun _ _ _ => inl ErrNotFound
|}.

(** A mounter whose [MakeDir] succeeds, with the given answers to [Mount]
    and [Unmount], as the mock of the directory tests does. *)
Definition mockMounter (mount unmount : option OpaqueError) : Mounter := {|
  MakeDir := fun _ _ => None;
  Mount := fun _ _ _ _ _ => mount;
  Unmount := fun _ _ => unmount
|}.

(** No role can be assumed, the ambient credentials are used, and the
    paths joined are clean already. *)
Definition world : World := {|
  NewCloudWithRole := fun _ _ => None;
  uuidNew := fun _ => "uuid-1"%string;
  pathJoin := fun a b => a +:+ b;
  dirGetCloud := fun _ c _ => inr (c, EmptyString);
  dirGetMountOptions := fun _ _ _ _ => inr [ "tls"%string; "iam"%string ]
|}.

Definition st0 : State := mkState ∅ [].

Definition request (name : string) (params : list (string * string))
    : CreateVolumeRequest := {|
  Name := name;
  RequiredBytes := 5368709120;
  Parameters := list_to_map params;
  Secrets := ∅
|}.

(** An access-point provisioner without tags of its own whose remote
    creation succeeds, and one whose remote creation fails. *)
Definition apOk : AccessPointProvisioner.AccessPointProvisioner := {|
  AccessPointProvisioner.tags := ∅;
  AccessPointProvisioner.cloud := mockCloud (inr {| AccessPointId := "fsap-9" |})
|}.

Definition apFailing : AccessPointProvisioner.AccessPointProvisioner := {|
  AccessPointProvisioner.tags := ∅;
  AccessPointProvisioner.cloud := mockCloud (inl (ErrOther "create failed"))
|}.

(** A valid gid and no uid. *)
Definition reqGidOnly : CreateVolumeRequest :=
  request "vol" [ ("fileSystemId", "fs-1"); ("gid", "1000") ].

(** A valid uid and a negative gid. *)
Definition reqNegativeGid : CreateVolumeRequest :=
  request "vol" [ ("fileSystemId", "fs-1"); ("uid", "0"); ("gid", "-5") ].

(** Both uid and gid supplied, the gid being [-1]. *)
Definition reqGidMinusOne : CreateVolumeRequest :=
  request "vol"
    [ ("fileSystemId", "fs-1"); ("uid", "0"); ("gid", "-1");
      ("gidRangeStart", "1000"); ("gidRangeEnd", "2000") ].

(** Neither uid nor gid, as in the controller test "Success: Normal flow". *)
Definition reqNoIdentity : CreateVolumeRequest :=
  request "vol"
    [ ("fileSystemId", "fs-1");
      ("gidRangeStart", "1000"); ("gidRangeEnd", "2000") ].

(** A directory provisioner of the directory tests: no remote service, the
    given mounter and OS client. *)
Definition dirProvisioner (m : Mounter) (os : OsClient) (del : bool)
    : DirectoryProvisioner.DirectoryProvisioner := {|
  DirectoryProvisioner.mounter := m;
  DirectoryProvisioner.cloud := None;
  DirectoryProvisioner.osClient := os;
  DirectoryProvisioner.deleteProvisionedDir := del
|}.

(** The create request of the directory tests. *)
Definition dirRequest : CreateVolumeRequest :=
  request "volumeName"
    [ ("provisioningMode", "efs-dir"); ("fileSystemId", "fs-abcd1234");
      ("gidRangeStart", "1000"); ("gidRangeEnd", "2000");
      ("directoryPerms", "777"); ("basePath", "/dynamic") ].

(** The delete request of the directory tests. *)
Definition delRequest : DeleteVolumeRequest := {|
  DelVolumeId := "fs-abcd1234:/dynamic/newDir";
  DelSecrets := ∅
|}.

End Mocks.

(** ** Predicates of the statements *)

(** A rune that is neither a quote nor a colon. *)
Definition plain (c : rune) : Prop := c ≠ QUOTE ∧ c ≠ COLON.

(** No colon occurs in the string. *)
Definition colonFree (s : string) : bool :=
  forallb (fun c => negb (Ascii.eqb c COLON)) (runes s).

(** The string begins with a slash, as a sub-path does. *)
Definition beginsWithSlash (s : string) : bool :=
  match s with
  | String c _ => Ascii.eqb c "/"
  | EmptyString => false
  end.

(** ** More predicates of the statements *)

(** The value of [literal] after the runes [chars] when it is [literal]
    before them: every quote toggles it. *)
Fixpoint literalAfter (chars : list rune) (literal : bool) : bool :=
  match chars with
  | [] => literal
  | c :: rest =>
      literalAfter rest (if Ascii.eqb c QUOTE then negb literal else literal)
  end.

(** The quotes of the string come in pairs. *)
Definition balanced (s : string) : bool := negb (literalAfter (runes s) false).

(** A rune of a bare key: no quote, no colon, no space. *)
Definition keyRune (c : rune) : bool :=
  negb (Ascii.eqb c QUOTE) && negb (Ascii.eqb c COLON)
  && negb (Ascii.eqb c SPACE).

(** A rune of a bare value: no quote, no space. *)
Definition valueRune (c : rune) : bool :=
  negb (Ascii.eqb c QUOTE) && negb (Ascii.eqb c SPACE).

(** A rune of a quoted value: no quote. *)
Definition quotedRune (c : rune) : bool := negb (Ascii.eqb c QUOTE).

(** ** More collaborators for the examples *)

Module MoreMocks.

(** A remote service that does not know the filesystem. *)
Definition cloudWithoutFs : Cloud := {|
  DescribeFileSystem := fun _ _ => Some ErrNotFound;
  CreateAccessPoint := fun _ _ _ => inl (ErrOther "unreachable");
  DescribeMountTargets := fun _ _ _ => inl ErrNotFound
|}.

Definition apWithoutFs : AccessPointProvisioner.AccessPointProvisioner := {|
  AccessPointProvisioner.tags := ∅;
  AccessPointProvisioner.cloud := cloudWithoutFs
|}.

(** A world where every role can be assumed; the remote service reached
    through the role creates the access point and finds no mount target. *)
Definition worldWithRole : World := {|
  NewCloudWithRole :=
    fun _ _ => Some (Mocks.mockCloud (inr {| AccessPointId := "fsap-9" |}));
  uuidNew := uuidNew Mocks.world;
  pathJoin := pathJoin Mocks.world;
  dirGetCloud := dirGetCloud Mocks.world;
  dirGetMountOptions := dirGetMountOptions Mocks.world
|}.

(** A request that carries a role in its secrets. *)
Definition reqWithRole : CreateVolumeRequest := {|
  Name := "vol";
  RequiredBytes := 5368709120;
  Parameters :=
    list_to_map [ ("fileSystemId", "fs-1"); ("az", "us-east-1a");
                  ("gidRangeStart", "1000"); ("gidRangeEnd", "2000") ];
  Secrets := {[ "awsRoleArn" := "arn:aws:iam::1:role/x" ]}
|}.

(** A request over the range 1000 to 1001, and a state in which both
    integers are held for its filesystem. *)
Definition reqSmallRange : CreateVolumeRequest :=
  Mocks.request "vol"
    [ ("fileSystemId", "fs-1");
      ("gidRangeStart", "1000"); ("gidRangeEnd", "1001") ].

Definition stFull : State :=
  mkState {[ "fs-1" := {[ 1000; 1001 ]} ]} [].

(** An access-point provisioner with two tags of its own, one of them on
    the key of the default tag. *)
Definition apTagged : AccessPointProvisioner.AccessPointProvisioner := {|
  AccessPointProvisioner.tags :=
    {[ "efs.csi.aws.com/cluster" := "mine"; "team" := "storage" ]};
  AccessPointProvisioner.cloud :=
    Mocks.mockCloud (inr {| AccessPointId := "fsap-9" |})
|}.

End MoreMocks.


(** The call recorded by the event came back with an error. *)
Definition failed (ev : Event) : bool :=
  match ev with
  | EvNewCloudWithRole _ ok => negb ok
  | EvReleaseGid _ _ | EvUuidNew _ => false
  | EvGetNextGid _ _ _ (inl _) | EvCreateAccessPoint _ _ (inl _)
  | EvDescribeMountTargets _ _ (inl _) | EvGetMountOptions _ _ (inl _) => true
  | EvGetNextGid _ _ _ (inr _) | EvCreateAccessPoint _ _ (inr _)
  | EvDescribeMountTargets _ _ (inr _) | EvGetMountOptions _ _ (inr _) => false
  | EvDescribeFileSystem _ r | EvGetCloud r | EvMakeDir _ r
  | EvMount _ _ _ _ r | EvUnmount _ r | EvMkDirAllWithPerms _ _ _ _ r
  | EvRemove _ r | EvRemoveAll _ r =>
      match r with Some _ => true | None => false end
  end.

(** ** The deletion of an access point *)

(** [Delete] of the access-point provisioner (lines 331 to 401 of
    [tag_parser.go]).  It calls two methods of the remote service that
    [Provision] does not call, and the package [os] directly, so that its
    calls are recorded in a history of their own. *)
Module AccessPointDeletion.

(** [cloud.AccessPoint], as far as [Delete] reads it. *)
Record AccessPointInfo := { AccessPointRootDir : string }.

Inductive Call :=
| CallNewCloudWithRole (roleArn : string) (ok : bool)
| CallDescribeAccessPoint (accessPointId : string)
    (r : CloudError + AccessPointInfo)
| CallDescribeMountTargets (fsId az : string) (r : CloudError + MountTarget)
| CallMakeDir (path : string) (r : option OpaqueError)
| CallMount (source target fstype : string) (options : list string)
    (r : option OpaqueError)
| CallOsRemove (path : string) (r : option OpaqueError)
| CallOsRemoveAll (path : string) (r : option OpaqueError)
| CallUnmount (target : string) (r : option OpaqueError)
| CallDeleteAccessPoint (accessPointId : string) (r : option CloudError).

(** [cloud.Cloud], as far as [Delete] uses it. *)
Record DelCloud := {
  DescribeAccessPoint : list Call -> string -> CloudError + AccessPointInfo;
  DescribeMountTargetsOf :
    list Call -> string -> string -> CloudError + MountTarget;
  DeleteAccessPoint : list Call -> string -> option CloudError
}.

(** The [Mounter] interface. *)
Record DelMounter := {
  MakeDirOf : list Call -> string -> option OpaqueError;
  MountOf :
    list Call -> string -> string -> string -> list string
    -> option OpaqueError;
  UnmountOf : list Call -> string -> option OpaqueError
}.

(** The fields of [AccessPointProvisioner] that [Delete] reads. *)
Record Deleter := {
  delCloud : DelCloud;
  deleteAccessPointRootDir : bool;
  delMounter : DelMounter
}.

(** [cloud.NewCloudWithRole], [os.Remove] and [os.RemoveAll]. *)
Record DelWorld := {
  NewCloudWithRoleOf : list Call -> string -> option DelCloud;
  osRemove : list Call -> string -> option OpaqueError;
  osRemoveAll : list Call -> string -> option OpaqueError
}.

(** A computation returns an error status or goes on with a value, and
    extends the history of the calls. *)
Definition D (A : Type) : Type := list Call -> (Status + A) * list Call.

Definition dret {A} (x : A) : D A := fun h => (inr x, h).

Definition dthrow {A} (c : Code) (fmt : string) : D A :=
  fun h => (inl (mkStatus c fmt), h).

Definition dbind {A B} (m : D A) (k : A -> D B) : D B :=
  fun h =>
    match m h with
    | (inl e, h') => (inl e, h')
    | (inr x, h') => k x h'
    end.

#[export] Instance D_ret : MRet D := @dret.
#[export] Instance D_bind : MBind D := fun A B k m => dbind m k.

(** A call to a collaborator: the answer is read off the history and the
    call is recorded with it. *)
Definition dcall {A} (answer : list Call -> A) (ev : A -> Call) : D A :=
  fun h => let r := answer h in (inr r, h ++ [ev r]).

(** [a.getCloud(secrets)] (lines 403 to 425). *)
Definition getCloud (w : DelWorld) (a : Deleter)
    (secrets : gmap string string) : D (DelCloud * string) :=
  let roleArn := default EmptyString (secrets !! RoleArn) in
  if negb (String.eqb roleArn EmptyString) then
    r ← dcall (fun h => NewCloudWithRoleOf w h roleArn)
              (fun r => CallNewCloudWithRole roleArn
                          (match r with Some _ => true | None => false end));
    match r with
    | None =>
        dthrow Unauthenticated
          "Unable to initialize aws cloud: %v. Please verify role has the correct AWS permissions for cross account mount"
    | Some localCloud => mret (localCloud, roleArn)
    end
  else mret (delCloud a, roleArn).

(** Lines 355 to 364: the mount options. *)
Definition mountOptionsOf (localCloud : DelCloud)
    (fileSystemId roleArn : string) : D (list string) :=
  let mountOptions := [ "tls"%string; "iam"%string ] in
  if negb (String.eqb roleArn EmptyString) then
    r ← dcall (fun h => DescribeMountTargetsOf localCloud h fileSystemId
                          EmptyString)
              (CallDescribeMountTargets fileSystemId EmptyString);
    match r with
    | inr mountTarget =>
        mret (mountOptions
              ++ [ MountTargetIp +:+ "=" +:+ IPAddress mountTarget ])
    | inl _ => mret mountOptions
    end
  else mret mountOptions.

(** Lines 366 to 385: the root directory of the access point is removed
    through a temporary mount of the filesystem. *)
Definition removeRootDir (w : DelWorld) (a : Deleter)
    (fileSystemId accessPointId : string) (accessPoint : AccessPointInfo)
    (mountOptions : list string) : D unit :=
  let target := TempMountPathPrefix +:+ "/" +:+ accessPointId in
  r ← dcall (fun h => MakeDirOf (delMounter a) h target) (CallMakeDir target);
  match r with
  | Some _ => dthrow Internal "Could not create dir %q: %v"
  | None =>
      r ← dcall (fun h => MountOf (delMounter a) h fileSystemId target "efs"
                            mountOptions)
                (CallMount fileSystemId target "efs" mountOptions);
      match r with
      | Some _ =>
          _ ← dcall (fun h => osRemove w h target) (CallOsRemove target);
          dthrow Internal "Could not mount %q at %q: %v"
      | None =>
          let rootDir := target +:+ AccessPointRootDir accessPoint in
          r ← dcall (fun h => osRemoveAll w h rootDir)
                    (CallOsRemoveAll rootDir);
          match r with
          | Some _ =>
              dthrow Internal
                "Could not delete access point root directory %q: %v"
          | None =>
              r ← dcall (fun h => UnmountOf (delMounter a) h target)
                        (CallUnmount target);
              match r with
              | Some _ => dthrow Internal "Could not unmount %q: %v"
              | None =>
                  r ← dcall (fun h => osRemoveAll w h target)
                            (CallOsRemoveAll target);
                  match r with
                  | Some _ => dthrow Internal "Could not delete %q: %v"
                  | None => mret tt
                  end
              end
          end
      end
  end.

(** Lines 388 to 400: the access point itself. *)
Definition deleteAccessPoint (localCloud : DelCloud) (accessPointId : string)
    : D unit :=
  r ← dcall (fun h => DeleteAccessPoint localCloud h accessPointId)
            (CallDeleteAccessPoint accessPointId);
  match r with
  | Some ErrAccessDenied =>
      dthrow Unauthenticated
        "Access Denied. Please ensure you have the right AWS permissions: %v"
  | Some ErrNotFound => mret tt
  | Some _ => dthrow Internal "Failed to Delete volume %v: %v"
  | None => mret tt
  end.

(** [Delete] returns an [error]: [inr tt] is [nil].  The [return nil] of
    line 349 leaves the function before the access point is deleted. *)
Definition Delete (w : DelWorld) (a : Deleter) (req : DeleteVolumeRequest)
    : D unit :=
  '(localCloud, roleArn) ← getCloud w a (DelSecrets req);
  let '(fileSystemId, _, accessPointId) := parseVolumeId (DelVolumeId req) in
  if deleteAccessPointRootDir a then
    r ← dcall (fun h => DescribeAccessPoint localCloud h accessPointId)
              (CallDescribeAccessPoint accessPointId);
    match r with
    | inl ErrAccessDenied =>
        dthrow Unauthenticated
          "Access Denied. Please ensure you have the right AWS permissions: %v"
    | inl ErrNotFound => mret tt
    | inl _ =>
        dthrow Internal
          "Could not get describe Access Point: %v , error: %v"
    | inr accessPoint =>
        mountOptions ← mountOptionsOf localCloud fileSystemId roleArn;
        _ ← removeRootDir w a fileSystemId accessPointId accessPoint
              mountOptions;
        deleteAccessPoint localCloud accessPointId
    end
  else deleteAccessPoint localCloud accessPointId.

(** The calls a run added to the history. *)
Definition newCalls (h h' : list Call) : list Call := drop (length h) h'.

(** The answer of [Delete] to the outcome of [DeleteAccessPoint]. *)
Definition deleteAnswer (r : option CloudError) : Status + unit :=
  match r with
  | Some ErrAccessDenied =>
      inl (mkStatus Unauthenticated
             "Access Denied. Please ensure you have the right AWS permissions: %v")
  | Some ErrNotFound | None => inr tt
  | Some _ => inl (mkStatus Internal "Failed to Delete volume %v: %v")
  end.

(** The call came back with an error. *)
Definition callFailed (c : Call) : bool :=
  match c with
  | CallNewCloudWithRole _ ok => negb ok
  | CallDescribeAccessPoint _ (inl _) | CallDescribeMountTargets _ _ (inl _)
    => true
  | CallDescribeAccessPoint _ (inr _) | CallDescribeMountTargets _ _ (inr _)
    => false
  | CallDeleteAccessPoint _ r =>
      match r with Some _ => true | None => false end
  | CallMakeDir _ r | CallMount _ _ _ _ r | CallOsRemove _ r
  | CallOsRemoveAll _ r | CallUnmount _ r =>
      match r with Some _ => true | None => false end
  end.

(** *** Collaborators for the examples *)

(** The remote service of the controller tests: the access point exists,
    with the given answer to [DeleteAccessPoint]. *)
Definition mockDelCloud (delete : option CloudError) : DelCloud := {|
  DescribeAccessPoint := fun _ _ => inr {| AccessPointRootDir := "/vol" |};
  DescribeMountTargetsOf := fun _ _ _ => inl ErrNotFound;
  DeleteAccessPoint := fun _ _ => delete
|}.

(** A remote service that does not know the access point. *)
Definition delCloudWithoutAccessPoint : DelCloud := {|
  DescribeAccessPoint := fun _ _ => inl ErrNotFound;
  DescribeMountTargetsOf := fun _ _ _ => inl ErrNotFound;
  DeleteAccessPoint := fun _ _ => Some ErrNotFound
|}.

Definition mockDelMounter (mount : option OpaqueError) : DelMounter := {|
  MakeDirOf := fun _ _ => None;
  MountOf := fun _ _ _ _ _ => mount;
  UnmountOf := fun _ _ => None
|}.

(** No role can be assumed; [os.Remove] succeeds and [os.RemoveAll] answers
    [removeAll]. *)
Definition delWorld (removeAll : option OpaqueError) : DelWorld := {|
  NewCloudWithRoleOf := fun _ _ => None;
  osRemove := fun _ _ => None;
  osRemoveAll := fun _ _ => removeAll
|}.

(** The delete request of the controller tests. *)
Definition delRequest : DeleteVolumeRequest := {|
  DelVolumeId := "fs-abcd1234::fsap-abcd1234xyz987";
  DelSecrets := ∅
|}.

End AccessPointDeletion.

(** * Properties *)

(** ** Strings *)

Lemma app_cons (c : ascii) (s t : string) :
  String c s +:+ t = String c (s +:+ t).
Proof. reflexivity. Qed.

Lemma app_empty_r (s : string) : s +:+ EmptyString = s.
Proof. induction s as [|c s IH]; [reflexivity|]. by rewrite app_cons, IH. Qed.

Lemma app_snoc (s t : string) (c : ascii) :
  (s +:+ str1 c) +:+ t = s +:+ String c t.
Proof.
  induction s as [|d s IH]; [reflexivity|]. by rewrite !app_cons, IH.
Qed.

Lemma ofRunes_runes (s : string) : ofRunes (runes s) = s.
Proof. apply string_of_list_ascii_of_string. Qed.

Lemma runes_ofRunes (l : list rune) : runes (ofRunes l) = l.
Proof. apply list_ascii_of_string_of_list_ascii. Qed.

(** ** The tag parser *)

Section TagParserFacts.

Import TagParser.

(** On plain runes the key loop copies everything into the key and leaves
    [finalKeyIndex] at [-1]. *)
Lemma keyLoop_plain (chars : list rune) (i : Z) (key : string) :
  Forall plain chars →
  keyLoop chars i key false = (key +:+ ofRunes chars, false, -1).
Proof.
  intros Hp. revert i key.
  induction Hp as [|c rest [Hq Hc] _ IH]; intros i key; simpl.
  - by rewrite app_empty_r.
  - apply Ascii.eqb_neq in Hq, Hc. rewrite Hq, Hc, IH.
    by rewrite app_snoc.
Qed.

Lemma stripLeadingQuote_plain (s : string) :
  Forall plain (runes s) → stripLeadingQuote s = s.
Proof.
  destruct s as [|c s]; [done|]. simpl. intros Hp.
  apply Forall_cons in Hp as [[Hq _] _].
  apply Ascii.eqb_neq in Hq. by rewrite Hq.
Qed.

Lemma stripTrailingQuote_plain (s : string) :
  Forall plain (runes s) → stripTrailingQuote s = s.
Proof.
  intros Hp. unfold stripTrailingQuote.
  destruct (rev (runes s)) as [|c v] eqn:Hrev; [done|].
  assert (plain c) as [Hq _].
  { eapply Forall_forall; [exact Hp|].
    apply list_elem_of_In, in_rev. rewrite Hrev. by left. }
  apply Ascii.eqb_neq in Hq. by rewrite Hq.
Qed.

(** A token without quote and without colon is not rejected: it is returned
    as its own key and its own value. *)
Lemma extract_plain_token (token : string) :
  token ≠ EmptyString → Forall plain (runes token) →
  extractKeyAndValueFromRawPair token = inr (token, token).
Proof.
  intros Hne Hp. unfold extractKeyAndValueFromRawPair.
  rewrite keyLoop_plain by done.
  change (EmptyString +:+ ofRunes (runes token)) with (ofRunes (runes token)).
  rewrite ofRunes_runes. apply String.eqb_neq in Hne. rewrite Hne.
  change (Z.to_nat (-1 + 1)) with 0%nat. rewrite drop_0, ofRunes_runes.
  by rewrite stripLeadingQuote_plain, stripTrailingQuote_plain.
Qed.

(** Every token from which a key and a value are extracted has its key in
    the mapping returned, whatever the other tokens are. *)
Lemma tagsLoop_keeps (tagsSplit : list string) (m : gmap string string)
    (token k v : string) :
  In token tagsSplit →
  extractKeyAndValueFromRawPair token = inr (k, v) →
  is_Some (tagsLoop tagsSplit m !! k).
Proof.
  assert (Hmono : ∀ l (m' : gmap string string),
             is_Some (m' !! k) → is_Some (tagsLoop l m' !! k)).
  { induction l as [|p l IH]; intros m' Hm'; simpl; [done|].
    destruct (extractKeyAndValueFromRawPair p) as [|[k' v']]; [by apply IH|].
    apply IH. rewrite lookup_insert. case_decide; [by eexists|done]. }
  revert m. induction tagsSplit as [|p l IH]; intros m Hin Hex; [done|].
  simpl. destruct Hin as [->|Hin].
  - rewrite Hex. apply Hmono. rewrite lookup_insert_eq. by eexists.
  - destruct (extractKeyAndValueFromRawPair p) as [|[k' v']]; by apply IH.
Qed.

(** The same on the whole parser: a token of the string from which a key
    and a value are extracted has its key in the mapping, and so has a
    token made of plain runes only, which is its own key. *)
Lemma parse_keeps (tagStr token k v : string) :
  In token (extractPairsFromRawString tagStr) →
  extractKeyAndValueFromRawPair token = inr (k, v) →
  is_Some (parseTagsFromStr tagStr !! k).
Proof.
  intros Hin Hex. unfold parseTagsFromStr.
  destruct (String.eqb tagStr EmptyString) eqn:He.
  - apply String.eqb_eq in He. subst tagStr. destruct Hin.
  - by eapply tagsLoop_keeps.
Qed.

Lemma parse_keeps_plain_token (tagStr token : string) :
  In token (extractPairsFromRawString tagStr) →
  token ≠ EmptyString → Forall plain (runes token) →
  is_Some (parseTagsFromStr tagStr !! token).
Proof.
  intros Hin Hne Hp. eapply parse_keeps; [exact Hin|].
  by apply extract_plain_token.
Qed.

End TagParserFacts.

(** C8. The parser does not drop a token without colon: on
    ["a:b novalue c:d"] the token ["novalue"] enters the mapping as the key
    ["novalue"] with the value ["novalue"], next to the two tokens that have
    a colon. *)
Theorem C8_token_without_colon_is_kept :
  TagParser.extractPairsFromRawString "a:b novalue c:d"
    = [ "a:b"; "novalue"; "c:d" ]
  ∧ TagParser.extractKeyAndValueFromRawPair "novalue"
    = inr ("novalue", "novalue")
  ∧ TagParser.parseTagsFromStr "a:b novalue c:d"
    = <[ "c" := "d" ]> (<[ "novalue" := "novalue" ]> {[ "a" := "b" ]}).
Proof. split; [reflexivity|]. split; [reflexivity|]. by vm_compute. Qed.

(** C9, as the claim has it, fails: the mapping returned for
    ["a:'x y':b:c"] has no key ["b"]. *)
Lemma C9_counterexample :
  TagParser.parseTagsFromStr "a:'x y':b:c"
    ≠ <[ "b" := "c" ]> {[ "a" := "x y" ]}.
Proof.
  intros H. apply (f_equal (fun m : gmap string string => m !! "b")) in H.
  vm_compute in H. discriminate H.
Qed.

(** C9, amended. The string ["a:'x y':b:c"] has no space outside quotes, so
    it is one token; the token is cut at its first colon outside quotes, the
    quote that opens the value is stripped and, the value ending in ["c"],
    none is stripped at its end: the mapping has the one entry
    [a -> "x y':b:c"].  With a space between the two pairs,
    ["a:'x y' b:c"], the mapping is [{a: "x y", b: "c"}]. *)
Theorem C9_quoted_span_one_token :
  TagParser.extractPairsFromRawString "a:'x y':b:c" = [ "a:'x y':b:c" ]
  ∧ TagParser.parseTagsFromStr "a:'x y':b:c" = {[ "a" := "x y':b:c" ]}
  ∧ TagParser.parseTagsFromStr "a:'x y' b:c"
    = <[ "b" := "c" ]> {[ "a" := "x y" ]}.
Proof. split; [reflexivity|]. split; by vm_compute. Qed.

(** ** The volume identifier *)

Section CodecFacts.

Import VolumeIdCodec.

Lemma cutAtColon_app (fs rest : string) :
  colonFree fs = true →
  cutAtColon (fs +:+ String COLON rest) = Some (fs, rest).
Proof.
  unfold colonFree. induction fs as [|c fs IH]; simpl; intros Hfs.
  - reflexivity.
  - apply andb_prop in Hfs as [Hc Hfs]. apply negb_true_iff in Hc.
    rewrite Hc, IH by done. reflexivity.
Qed.

End CodecFacts.

(** C7. For a filesystem id without colon, the access-point form
    [fs + "::" + ap] decodes to [(fs, "", ap)], and, for a sub-path that
    begins with a slash, the directory form [fs + ":" + subPath] decodes to
    [(fs, subPath, "")]. *)
Theorem C7_volume_id_round_trip (fileSystemId accessPointId subPath : string) :
  colonFree fileSystemId = true →
  beginsWithSlash subPath = true →
  VolumeIdCodec.parseVolumeId
    (VolumeIdCodec.encodeAccessPoint fileSystemId accessPointId)
    = (fileSystemId, EmptyString, accessPointId)
  ∧ VolumeIdCodec.parseVolumeId
      (VolumeIdCodec.encodeDirectory fileSystemId subPath)
    = (fileSystemId, subPath, EmptyString).
Proof.
  intros Hfs Hsub.
  unfold VolumeIdCodec.parseVolumeId, VolumeIdCodec.encodeAccessPoint,
    VolumeIdCodec.encodeDirectory.
  split.
  - change ("::" +:+ accessPointId)
      with (String COLON (String COLON accessPointId)).
    rewrite cutAtColon_app by done. reflexivity.
  - change (":" +:+ subPath) with (String COLON subPath).
    rewrite cutAtColon_app by done.
    destruct subPath as [|c rest]; [discriminate Hsub|].
    simpl in Hsub. apply Ascii.eqb_eq in Hsub as ->. reflexivity.
Qed.

(** The example of the specification: [("fs-1", "fsap-9")] and
    [("fs-1", "/dynamic/vol")]. *)
Lemma C7_volume_id_round_trip_witness :
  VolumeIdCodec.parseVolumeId (VolumeIdCodec.encodeAccessPoint "fs-1" "fsap-9")
    = ("fs-1", EmptyString, "fsap-9")
  ∧ VolumeIdCodec.parseVolumeId
      (VolumeIdCodec.encodeDirectory "fs-1" "/dynamic/vol")
    = ("fs-1", "/dynamic/vol", EmptyString).
Proof.
  apply (C7_volume_id_round_trip "fs-1" "fsap-9" "/dynamic/vol");
    reflexivity.
Defined.

(** ** The identity range allocator *)

Section AllocatorFacts.

Import Allocator.

Lemma firstFree_Some (held : gset Z) (lo : Z) (fuel : nat) (id : Z) :
  firstFree held lo fuel = Some id →
  (id ∉ held) ∧ (lo ≤ id < lo + Z.of_nat fuel)
  ∧ ∀ x, lo ≤ x < id → x ∈ held.
Proof.
  revert lo. induction fuel as [|n IH]; intros lo; simpl; [done|].
  case_decide as Hin.
  - intros [Hid [Hr Hl]]%IH. split; [done|]. split; [lia|].
    intros x Hx. destruct (decide (x = lo)) as [->|]; [done|].
    apply Hl. lia.
  - intros [= <-]. split; [done|]. split; lia.
Qed.

Lemma firstFree_None (held : gset Z) (lo : Z) (fuel : nat) :
  firstFree held lo fuel = None →
  ∀ x, lo ≤ x < lo + Z.of_nat fuel → x ∈ held.
Proof.
  revert lo. induction fuel as [|n IH]; intros lo; simpl.
  - intros _ x Hx. lia.
  - case_decide as Hin; [|done]. intros Hn x Hx.
    destruct (decide (x = lo)) as [->|]; [done|]. apply (IH _ Hn). lia.
Qed.

Lemma heldGids_insert (g : GidAllocator) (fsId : string) (s : gset Z) :
  heldGids (<[fsId := s]> g) fsId = s.
Proof. unfold heldGids. by rewrite lookup_insert_eq. Qed.

(** What a successful acquisition returns: the smallest integer of the
    range that is free, which becomes held. *)
Lemma getNextGid_acquires (g g' : GidAllocator) (fsId : string)
    (gidMin gidMax id : Z) :
  getNextGid g fsId gidMin gidMax = (inr id, g') →
  (id ∉ heldGids g fsId) ∧ (gidMin ≤ id ≤ gidMax)
  ∧ (∀ x, gidMin ≤ x < id → x ∈ heldGids g fsId)
  ∧ heldGids g' fsId = {[id]} ∪ heldGids g fsId.
Proof.
  unfold getNextGid.
  destruct (firstFree _ _ _) as [id'|] eqn:Hff; [|done].
  intros [= -> <-]. apply firstFree_Some in Hff as (Hn & Hr & Hl).
  rewrite heldGids_insert. repeat split; try done; lia.
Qed.

(** An acquisition fails only when the whole range is held. *)
Lemma getNextGid_exhausted (g g' : GidAllocator) (fsId : string)
    (gidMin gidMax : Z) (e : Status) :
  getNextGid g fsId gidMin gidMax = (inl e, g') →
  code e = RangeExhausted
  ∧ (∀ x, gidMin ≤ x ≤ gidMax → x ∈ heldGids g fsId)
  ∧ heldGids g' fsId = heldGids g fsId.
Proof.
  unfold getNextGid.
  destruct (firstFree _ _ _) eqn:Hff; [done|].
  intros [= <- <-]. rewrite heldGids_insert. repeat split.
  intros x Hx. apply (firstFree_None _ _ _ Hff). lia.
Qed.

Lemma heldGids_release (g : GidAllocator) (fsId : string) (gid : Z) :
  heldGids (releaseGid g fsId gid) fsId = heldGids g fsId ∖ {[gid]}.
Proof.
  unfold releaseGid, heldGids.
  destruct (g !! fsId) as [held|] eqn:Hg; simpl.
  - by rewrite lookup_insert_eq.
  - rewrite Hg. simpl. apply set_eq. intros x. set_unfold. tauto.
Qed.

(** Releasing what was just acquired gives the ledger of the filesystem
    back as it was. *)
Lemma release_after_acquire (g g' : GidAllocator) (fsId : string)
    (gidMin gidMax id : Z) :
  getNextGid g fsId gidMin gidMax = (inr id, g') →
  heldGids (releaseGid g' fsId id) fsId = heldGids g fsId.
Proof.
  intros (Hn & _ & _ & Hh)%getNextGid_acquires.
  rewrite heldGids_release, Hh. apply set_eq. intros x. set_unfold.
  split; [tauto|]. intros Hx. split; [by right|]. by intros ->.
Qed.

(** The answer of an acquisition depends on the ledger of the filesystem
    only. *)
Lemma getNextGid_ext (g1 g2 : GidAllocator) (fsId : string)
    (gidMin gidMax : Z) :
  heldGids g1 fsId = heldGids g2 fsId →
  (getNextGid g1 fsId gidMin gidMax).1 = (getNextGid g2 fsId gidMin gidMax).1.
Proof.
  intros Hh. unfold getNextGid. rewrite Hh.
  by destruct (firstFree _ _ _).
Qed.

(** Releasing an integer that is not held changes nothing for the
    acquisitions that follow. *)
Lemma release_not_held (g : GidAllocator) (fsId : string) (gid : Z) :
  gid ∉ heldGids g fsId →
  heldGids (releaseGid g fsId gid) fsId = heldGids g fsId.
Proof.
  intros Hn. rewrite heldGids_release. apply set_eq. intros x. set_unfold.
  split; [tauto|]. intros Hx. split; [done|]. by intros ->.
Qed.

(** Along any sequence of acquisitions and releases on one filesystem id
    over one range, the integers held stay inside the range. *)
Lemma runOps_in_range (ops : list Op) (g : GidAllocator) (fsId : string)
    (gidMin gidMax : Z) :
  (∀ x, x ∈ heldGids g fsId → gidMin ≤ x ≤ gidMax) →
  ∀ x, x ∈ heldGids (runOps g fsId gidMin gidMax ops).1 fsId →
       gidMin ≤ x ≤ gidMax.
Proof.
  revert g. induction ops as [|[|gid] ops IH]; intros g Hg; simpl; [done|..].
  - destruct (getNextGid g fsId gidMin gidMax) as [r g'] eqn:Hn.
    destruct (runOps g' fsId gidMin gidMax ops) as [g'' rs] eqn:Hr.
    simpl. change g'' with (g'', rs).1. rewrite <- Hr. apply IH.
    destruct r as [e|id].
    + apply getNextGid_exhausted in Hn as (_ & _ & ->). done.
    + apply getNextGid_acquires in Hn as (_ & Hid & _ & ->).
      intros x [->%elem_of_singleton|Hx]%elem_of_union; [done|by apply Hg].
  - apply IH. intros x. rewrite heldGids_release.
    intros [Hx _]%elem_of_difference. by apply Hg.
Qed.

(** Two acquisitions in a row never return the same integer. *)
Lemma acquire_twice_distinct (g g1 g2 : GidAllocator) (fsId : string)
    (gidMin gidMax id1 id2 : Z) :
  getNextGid g fsId gidMin gidMax = (inr id1, g1) →
  getNextGid g1 fsId gidMin gidMax = (inr id2, g2) →
  id1 ≠ id2.
Proof.
  intros (_ & _ & _ & Hh)%getNextGid_acquires
         (Hn & _)%getNextGid_acquires.
  rewrite Hh in Hn. intros ->. apply Hn. set_unfold. by left.
Qed.

End AllocatorFacts.

(** ** The access-point provisioner *)

Ltac unfold_monad :=
  unfold mbind, M_bind, mret, M_ret, bind, ret, throw, throwStatus, liftE,
    call in *.

(** Case analysis on the membership of an event in a history. *)
Ltac split_in :=
  repeat match goal with
    | H : False |- _ => destruct H
    | H : In _ (_ ++ _) |- _ => apply in_app_or in H as [H|H]
    | H : In _ (_ :: _) |- _ => destruct H as [H|H]
    | H : In _ [] |- _ => destruct H
    | H : _ ∨ _ |- _ => destruct H as [H|H]
    | H : ∃ _, _ |- _ => destruct H as [? H]
    | H : @eq Event _ _ |- _ =>
        first [discriminate H | progress subst
              | injection H; clear H; intros; subst]
    | H : @eq (list Event) _ _ |- _ => subst
    end.

Section ProvisionFacts.

Import AccessPointProvisioner.

Lemma newEvents_app (st : State) (g : GidAllocator) (l : History) :
  newEvents st (mkState g (trace st ++ l)) = l.
Proof. unfold newEvents; simpl. apply drop_app_length. Qed.

Lemma newEvents_same (st : State) (g : GidAllocator) :
  newEvents st (mkState g (trace st)) = [].
Proof. unfold newEvents; simpl. apply drop_all. Qed.

(** *** The validation of the request *)

Lemma checkFsId_inl p e : checkFsId p = inl e → code e = InvalidArgument.
Proof. unfold checkFsId. repeat case_match; by intros [= <-]. Qed.

Lemma checkUid_inl p e : checkUid p = inl e → code e = InvalidArgument.
Proof. unfold checkUid. repeat case_match; by intros [= <-]. Qed.

Lemma checkGid_inl p uid e : checkGid p uid = inl e → code e = InvalidArgument.
Proof. unfold checkGid. repeat case_match; by intros [= <-]. Qed.

Lemma checkGidMin_inl p e : checkGidMin p = inl e → code e = InvalidArgument.
Proof. unfold checkGidMin. repeat case_match; by intros [= <-]. Qed.

Lemma checkGidMax_inl p m e :
  checkGidMax p m = inl e → code e = InvalidArgument.
Proof. unfold checkGidMax. repeat case_match; by intros [= <-]. Qed.

(** Every failure of the validation is an [InvalidArgument]. *)
Lemma validateParams_inl req e :
  validateParams req = inl e → code e = InvalidArgument.
Proof.
  unfold validateParams. destruct (String.eqb _ _); [by intros [= <-]|].
  destruct (checkFsId _) eqn:H1; [intros [= <-]; eauto using checkFsId_inl|].
  destruct (checkUid _) as [|uid] eqn:H2;
    [intros [= <-]; eauto using checkUid_inl|].
  destruct (checkGid _ _) eqn:H3; [intros [= <-]; eauto using checkGid_inl|].
  destruct (checkGidMin _) as [|gidMin] eqn:H4;
    [intros [= <-]; eauto using checkGidMin_inl|].
  destruct (checkGidMax _ _) eqn:H5;
    [intros [= <-]; eauto using checkGidMax_inl|].
  by destruct (defaultRange _ _).
Qed.

(** What the validation returns for [uid] and [gid] is what the two checks
    return. *)
Lemma validateParams_inr req v :
  validateParams req = inr v →
  checkUid (Parameters req) = inr (vUid v)
  ∧ checkGid (Parameters req) (vUid v) = inr (vGid v).
Proof.
  unfold validateParams. destruct (String.eqb _ _); [done|].
  destruct (checkFsId _); [done|].
  destruct (checkUid _) as [|uid] eqn:Hu; [done|].
  destruct (checkGid _ uid) as [|gid] eqn:Hg; [done|].
  destruct (checkGidMin _) as [|gidMin]; [done|].
  destruct (checkGidMax _ _); [done|].
  destruct (defaultRange _ _). by intros [= <-].
Qed.

Lemma checkUid_inr p uid :
  checkUid p = inr uid →
  (p !! Uid = None ∧ uid = -1)
  ∨ (∃ s, p !! Uid = Some s ∧ Atoi s = Some uid ∧ 0 ≤ uid).
Proof.
  unfold checkUid. destruct (p !! Uid) as [s|]; [|intros [= <-]; by left].
  destruct (Atoi s) as [u|] eqn:Ha; [|done].
  destruct (u <? 0) eqn:Hu; [done|]. intros [= <-].
  right. exists s. apply Z.ltb_ge in Hu. auto.
Qed.

Lemma checkGid_inr p uid gid :
  checkGid p uid = inr gid →
  (p !! Gid = None ∧ gid = -1)
  ∨ (∃ s, p !! Gid = Some s ∧ Atoi s = Some gid ∧ 0 ≤ uid).
Proof.
  unfold checkGid. destruct (p !! Gid) as [s|]; [|intros [= <-]; by left].
  destruct (Atoi s) as [u|] eqn:Ha; [|done].
  destruct (uid <? 0) eqn:Hu; [done|]. intros [= <-].
  right. exists s. apply Z.ltb_ge in Hu. auto.
Qed.

(** After the validation, a [uid] that still holds [-1] comes with a [gid]
    that holds [-1] too: a gid without a uid does not pass. *)
Lemma validated_uid_missing req v :
  validateParams req = inr v → vUid v = -1 → vGid v = -1.
Proof.
  intros [_ Hg]%validateParams_inr Hu. rewrite Hu in Hg.
  apply checkGid_inr in Hg as [[_ ?]|(s & _ & _ & ?)]; [done|lia].
Qed.

(** A request that fails the validation is answered with that failure, and
    nothing else happens. *)
Lemma Provision_invalid w a req st e :
  validateParams req = inl e → Provision w a req st = (inl e, st).
Proof. intros Hv. unfold Provision. unfold_monad. by rewrite Hv. Qed.

(** *** The steps that follow the validation *)

Lemma getCloud_run w a secrets st :
  ∃ r pre,
    getCloud w a secrets st = (r, mkState (gids st) (trace st ++ pre))
    ∧ (pre = [] ∨ ∃ role ok, pre = [EvNewCloudWithRole role ok]).
Proof.
  unfold getCloud. destruct (negb _).
  - unfold_monad. simpl.
    destruct (NewCloudWithRole w (trace st) _); simpl; do 2 eexists;
      (split; [reflexivity|]); right; eauto.
  - exists (inr (cloud a, default EmptyString (secrets !! RoleArn))), [].
    rewrite app_nil_r. destruct st; split; [reflexivity|by left].
Qed.

(** The identity is drawn at most once, and only when [uid] or [gid] holds
    [-1]. *)
Lemma resolveIdentity_eq fsId gidMin gidMax uid gid st :
  resolveIdentity fsId gidMin gidMax uid gid st =
    if (uid =? -1) || (gid =? -1) then
      let r := (getNextGid (gids st) fsId gidMin gidMax).1 in
      (match r with
       | inl e => inl e
       | inr id =>
           inr (if uid =? -1 then id else uid, if gid =? -1 then id else gid)
       end,
       mkState (getNextGid (gids st) fsId gidMin gidMax).2
               (trace st ++ [EvGetNextGid fsId gidMin gidMax r]))
    else (inr (uid, gid), st).
Proof.
  unfold resolveIdentity, getNextGidM. unfold_monad.
  destruct ((uid =? -1) || (gid =? -1)) eqn:Hc.
  - destruct (getNextGid _ _ _ _) as [[e|id] g']; reflexivity.
  - apply orb_false_iff in Hc as [-> ->]. reflexivity.
Qed.

Lemma createRemote_run c role az name size opts st :
  match CreateAccessPoint c (trace st) name opts with
  | inl ce =>
      ∃ s, createRemote c role az name size opts st
        = (inl s,
           mkState (releaseGid (gids st) (FileSystemId opts) (OptGid opts))
             (trace st ++ [EvCreateAccessPoint name opts (inl ce);
                           EvReleaseGid (FileSystemId opts) (OptGid opts)]))
  | inr ap =>
      ∃ ctx post, createRemote c role az name size opts st
        = (inr {| CapacityBytes := size;
                  VolumeId :=
                    encodeAccessPoint (FileSystemId opts) (AccessPointId ap);
                  VolumeContext := ctx |},
           mkState (gids st)
             (trace st ++ EvCreateAccessPoint name opts (inr ap) :: post))
        ∧ (post = []
           ∨ ∃ r, post = [EvDescribeMountTargets (FileSystemId opts) az r])
  end.
Proof.
  unfold createRemote, releaseGidM. unfold_monad. simpl.
  destruct (CreateAccessPoint c (trace st) name opts) as [ce|ap] eqn:Hc.
  - destruct ce; simpl; rewrite <- app_assoc; simpl; eexists; reflexivity.
  - destruct (negb _); simpl.
    + destruct (DescribeMountTargets _ _ _ _) eqn:Hd; simpl;
        rewrite <- app_assoc; simpl; do 2 eexists;
        (split; [reflexivity|]); right; eauto.
    + do 2 eexists; (split; [reflexivity|]); by left.
Qed.

(** The runs of [allocateAndCreate], by what the allocator and the remote
    creation answer.  [acq] is the list of the acquisitions made (none or
    one), [uid] and [gid] the identity sent to the remote service. *)
Lemma allocateAndCreate_run a req v c role st r g1 :
  getNextGid (gids st) (vFsId v) (vGidMin v) (vGidMax v) = (r, g1) →
  let fs := vFsId v in
  let need := (vUid v =? -1) || (vGid v =? -1) in
  let run := allocateAndCreate a req v c role st in
  (* the range is exhausted *)
  (∃ e, need = true ∧ r = inl e
        ∧ run = (inl e, mkState g1 (trace st
                   ++ [EvGetNextGid fs (vGidMin v) (vGidMax v) r])))
  ∨ ∃ acq g uid gid,
      ((need = false ∧ acq = [] ∧ g = gids st
        ∧ uid = vUid v ∧ gid = vGid v)
       ∨ (∃ id, need = true ∧ r = inr id
            ∧ acq = [EvGetNextGid fs (vGidMin v) (vGidMax v) (inr id)]
            ∧ g = g1
            ∧ uid = (if vUid v =? -1 then id else vUid v)
            ∧ gid = (if vGid v =? -1 then id else vGid v)))
      ∧ let opts := optionsOf a req v uid gid in
        (* the remote creation fails *)
        ((∃ s ce, run = (inl s, mkState (releaseGid g fs gid)
                    (trace st ++ acq
                       ++ [EvCreateAccessPoint (Name req) opts (inl ce);
                           EvReleaseGid fs gid])))
         (* the remote creation succeeds *)
         ∨ (∃ vol ap post,
              run = (inr vol, mkState g
                      (trace st ++ acq
                         ++ EvCreateAccessPoint (Name req) opts (inr ap) :: post))
              ∧ VolumeId vol = encodeAccessPoint fs (AccessPointId ap)
              ∧ (post = []
                 ∨ ∃ r', post = [EvDescribeMountTargets fs (vAzName v) r']))).
Proof.
  intros Hn fs need run. subst run fs. unfold allocateAndCreate.
  unfold mbind, M_bind, bind. rewrite resolveIdentity_eq, Hn. fold need.
  destruct need eqn:Hneed; simpl.
  - destruct r as [e|id].
    + left. by exists e.
    + right.
      pose proof (createRemote_run c role (vAzName v) (Name req)
                    (RequiredBytes req)
                    (optionsOf a req v
                       (if vUid v =? -1 then id else vUid v)
                       (if vGid v =? -1 then id else vGid v))
                    (mkState g1 (trace st
                       ++ [EvGetNextGid (vFsId v) (vGidMin v) (vGidMax v)
                             (inr id)])))
        as Hc.
      simpl in Hc.
      eexists _, g1, _, _. split; [right; by exists id|].
      cbv zeta. destruct (CreateAccessPoint c _ _ _) as [ce|ap].
      * destruct Hc as [s ->]. rewrite <- app_assoc. left. by exists s, ce.
      * destruct Hc as (ctx & post & -> & Hpost). rewrite <- app_assoc.
        right. by eexists _, ap, post.
  - right.
    pose proof (createRemote_run c role (vAzName v) (Name req)
                  (RequiredBytes req) (optionsOf a req v (vUid v) (vGid v)) st)
      as Hc.
    simpl in Hc.
    exists [], (gids st), (vUid v), (vGid v). split; [by left|].
    cbv zeta. simpl. destruct (CreateAccessPoint c _ _ _) as [ce|ap].
    + destruct Hc as [s ->]. left. by exists s, ce.
    + destruct Hc as (ctx & post & -> & Hpost). right.
      by eexists _, ap, post.
Qed.

(** The runs of [Provision] on a request that passes the validation: the
    credentials, the description of the filesystem, then
    [allocateAndCreate]. *)
Lemma Provision_run w a req st v :
  validateParams req = inr v →
  ∃ pre,
    (pre = [] ∨ ∃ role ok, pre = [EvNewCloudWithRole role ok])
    ∧ ((∃ e, Provision w a req st
               = (inl e, mkState (gids st) (trace st ++ pre)))
       ∨ (∃ e ce, Provision w a req st
               = (inl e, mkState (gids st)
                    (trace st ++ pre
                       ++ [EvDescribeFileSystem (vFsId v) (Some ce)])))
       ∨ (∃ c role, Provision w a req st
               = allocateAndCreate a req v c role
                   (mkState (gids st)
                      (trace st ++ pre
                         ++ [EvDescribeFileSystem (vFsId v) None])))).
Proof.
  intros Hv. unfold Provision. unfold_monad. rewrite Hv.
  destruct (getCloud_run w a (Secrets req) st) as (r & pre & -> & Hpre).
  exists pre. split; [done|].
  destruct r as [e|[c role]]; [left; by exists e|]. right. simpl.
  rewrite <- app_assoc.
  destruct (DescribeFileSystem c (trace st ++ pre) (vFsId v)) as [ce|].
  - left. destruct ce; by eexists _, _.
  - right. by exists c, role.
Qed.


(** Whatever identity a run of [Provision] acquires is what the allocator
    answers in the state the run starts from. *)
Lemma Provision_acquire_event w a req st fs lo hi r :
  In (EvGetNextGid fs lo hi r) (newEvents st (Provision w a req st).2) →
  r = (getNextGid (gids st) fs lo hi).1.
Proof.
  destruct (validateParams req) as [e|v] eqn:Hv.
  { rewrite (Provision_invalid _ _ _ _ _ Hv). simpl.
    destruct st; rewrite newEvents_same. done. }
  destruct (Provision_run w a req st v Hv) as (pre & Hpre & Hrun).
  destruct Hrun as [[e ->]|[(e & ce & ->)|(c & role & ->)]]; simpl.
  - rewrite newEvents_app. intros Hin. split_in.
  - rewrite newEvents_app. intros Hin. split_in.
  - set (st1 := mkState _ _).
    destruct (getNextGid (gids st1) (vFsId v) (vGidMin v) (vGidMax v))
      as [r1 g1] eqn:Hn.
    destruct (allocateAndCreate_run a req v c role st1 r1 g1 Hn)
      as [(e & _ & -> & ->)|(acq & g & uid & gid & Hacq & Hcr)];
      simpl; rewrite <- ?app_assoc; simpl; rewrite ?newEvents_app.
    + intros Hin. split_in; simpl in Hn; by rewrite Hn.
    + cbv zeta in Hcr.
      destruct Hcr as [(s & ce & ->)|(vol & ap & post & -> & _ & Hpost)];
        simpl; rewrite <- ?app_assoc; simpl; rewrite ?newEvents_app;
        intros Hin;
        destruct Hacq as [(_ & -> & _)|(id & _ & -> & -> & _)];
        split_in; simpl in Hn; by rewrite Hn.
Qed.

(** A uid that is not supplied is the only way for [uid] to hold [-1]; a gid
    that is not supplied leaves [-1] in [gid]. *)
Lemma validated_uid_supplied req v :
  validateParams req = inr v →
  (Parameters req !! Uid = None ↔ vUid v = -1).
Proof.
  intros [Hu _]%validateParams_inr.
  apply checkUid_inr in Hu as [[? ?]|(s & Hs & _ & ?)]; split; intros;
    try done; [congruence|lia].
Qed.

Lemma validated_gid_not_supplied req v :
  validateParams req = inr v → Parameters req !! Gid = None → vGid v = -1.
Proof.
  intros [_ Hg]%validateParams_inr Hnone.
  apply checkGid_inr in Hg as [[? ?]|(s & Hs & _)]; [done|congruence].
Qed.

(** When the uid or the gid is not supplied, one acquisition is made and
    its result fills whichever of the two holds [-1]: both when both are
    missing, the gid alone when the uid is supplied. *)
Lemma identity_when_missing req v st :
  validateParams req = inr v →
  Parameters req !! Uid = None ∨ Parameters req !! Gid = None →
  resolveIdentity (vFsId v) (vGidMin v) (vGidMax v) (vUid v) (vGid v) st
  = let r := (getNextGid (gids st) (vFsId v) (vGidMin v) (vGidMax v)).1 in
    (match r with
     | inl e => inl e
     | inr id => inr (if vUid v =? -1 then id else vUid v, id)
     end,
     mkState (getNextGid (gids st) (vFsId v) (vGidMin v) (vGidMax v)).2
       (trace st ++ [EvGetNextGid (vFsId v) (vGidMin v) (vGidMax v) r])).
Proof.
  intros Hv Hmiss. rewrite resolveIdentity_eq.
  assert (vGid v = -1) as Hg.
  { destruct Hmiss as [Hu|Hg].
    - apply (validated_uid_missing req v Hv).
      by apply (validated_uid_supplied req v Hv).
    - by apply (validated_gid_not_supplied req v Hv). }
  rewrite Hg. simpl. by rewrite orb_true_r.
Qed.

(** When the validation leaves neither [uid] nor [gid] at [-1], no
    acquisition is made. *)
Lemma identity_when_present fsId gidMin gidMax uid gid st :
  uid ≠ -1 → gid ≠ -1 →
  resolveIdentity fsId gidMin gidMax uid gid st = (inr (uid, gid), st).
Proof.
  intros Hu%Z.eqb_neq Hg%Z.eqb_neq. rewrite resolveIdentity_eq.
  by rewrite Hu, Hg.
Qed.


(** C10. A request with a gid and no uid is answered [InvalidArgument],
    whatever the gid is, and nothing is called; and when the uid supplied
    parses to a non-negative integer and the gid supplied parses to a
    negative one, the check of the uid and the check of the gid both pass,
    the gid check returning the negative integer. *)
Theorem C10_gid_check_reads_uid (w : World)
    (a : AccessPointProvisioner.AccessPointProvisioner)
    (req : CreateVolumeRequest) (st : State) (sgid : string) :
  Parameters req !! Gid = Some sgid →
  (Parameters req !! Uid = None →
   ∃ fmt, AccessPointProvisioner.Provision w a req st
            = (inl (mkStatus InvalidArgument fmt), st))
  ∧ (∀ (suid : string) (uid gid : Z),
       Parameters req !! Uid = Some suid → Atoi suid = Some uid → 0 ≤ uid →
       Atoi sgid = Some gid → gid < 0 →
       AccessPointProvisioner.checkUid (Parameters req) = inr uid
       ∧ AccessPointProvisioner.checkGid (Parameters req) uid = inr gid).
Proof.
  intros Hgid. split.
  - intros Huid.
    destruct (AccessPointProvisioner.validateParams req) as [e|v] eqn:Hv.
    + pose proof (validateParams_inl req e Hv) as Hc. destruct e as [c fmt].
      simpl in Hc. subst c. exists fmt. by apply Provision_invalid.
    + exfalso.
      pose proof (proj1 (validated_uid_supplied req v Hv) Huid) as Hu.
      apply validateParams_inr in Hv as [_ Hg]. rewrite Hu in Hg.
      apply checkGid_inr in Hg as [[? _]|(s & _ & _ & ?)]; [congruence|lia].
  - intros suid uid gid Hs Hu Hpos Hg Hneg.
    unfold AccessPointProvisioner.checkUid, AccessPointProvisioner.checkGid.
    rewrite Hs, Hu, Hgid, Hg.
    apply Z.ltb_ge in Hpos. by rewrite Hpos.
Qed.

Lemma C10_gid_check_reads_uid_witness :
  (∃ fmt, AccessPointProvisioner.Provision Mocks.world Mocks.apOk
            Mocks.reqGidOnly Mocks.st0
          = (inl (mkStatus InvalidArgument fmt), Mocks.st0))
  ∧ (AccessPointProvisioner.checkUid (Parameters Mocks.reqNegativeGid) = inr 0
     ∧ AccessPointProvisioner.checkGid (Parameters Mocks.reqNegativeGid) 0
       = inr (-5)).
Proof.
  split.
  - apply (C10_gid_check_reads_uid Mocks.world Mocks.apOk Mocks.reqGidOnly
             Mocks.st0 "1000"); by vm_compute.
  - apply (C10_gid_check_reads_uid Mocks.world Mocks.apOk
             Mocks.reqNegativeGid Mocks.st0 "-5") with (suid := "0");
      by vm_compute.
Defined.

(** C1. The check of the gid does not do what the claim says.  A request
    whose gid is ["1000"], which parses to a non-negative integer, and which
    has no uid is answered [InvalidArgument] with the message of the gid
    range check; a request whose uid is ["0"] and whose gid is ["-5"] passes
    the check, and [-5] is sent to the remote service as the gid. *)
Theorem C1_gid_check_diverges :
  (Atoi "1000" = Some 1000
   ∧ AccessPointProvisioner.Provision Mocks.world Mocks.apOk Mocks.reqGidOnly
       Mocks.st0
     = (inl (mkStatus InvalidArgument "%v must be greater or equal than 0"),
        Mocks.st0))
  ∧ (Atoi "-5" = Some (-5)
     ∧ AccessPointProvisioner.checkGid (Parameters Mocks.reqNegativeGid) 0
       = inr (-5)
     ∧ ∃ opts,
         newEvents Mocks.st0
           (AccessPointProvisioner.Provision Mocks.world Mocks.apOk
              Mocks.reqNegativeGid Mocks.st0).2
         = [ EvDescribeFileSystem "fs-1" None;
             EvCreateAccessPoint "vol" opts (inr {| AccessPointId := "fsap-9" |}) ]
         ∧ OptUid opts = 0 ∧ OptGid opts = -5).
Proof.
  split; [split; by vm_compute|].
  split; [by vm_compute|]. split; [by vm_compute|].
  eexists. split; [vm_compute; reflexivity|]. split; reflexivity.
Qed.

(** C3. With both uid and gid supplied, an acquisition is made all the same
    when the gid supplied is ["-1"]: the request has the uid ["0"] and the
    gid ["-1"], the allocator is asked once, and the integer it returns
    replaces the gid that was supplied. *)
Theorem C3_supplied_gid_minus_one_allocates :
  Parameters Mocks.reqGidMinusOne !! Uid = Some "0"
  ∧ Parameters Mocks.reqGidMinusOne !! Gid = Some "-1"
  ∧ ∃ opts,
      newEvents Mocks.st0
        (AccessPointProvisioner.Provision Mocks.world Mocks.apOk
           Mocks.reqGidMinusOne Mocks.st0).2
      = [ EvDescribeFileSystem "fs-1" None;
          EvGetNextGid "fs-1" 1000 2000 (inr 1000);
          EvCreateAccessPoint "vol" opts (inr {| AccessPointId := "fsap-9" |}) ]
      ∧ OptUid opts = 0 ∧ OptGid opts = 1000.
Proof.
  split; [by vm_compute|]. split; [by vm_compute|].
  eexists. split; [vm_compute; reflexivity|]. split; reflexivity.
Qed.

(** C2. When a run of [Provision] has acquired the identity [id] for the
    filesystem [fs] in the range [[lo, hi]] and its remote creation fails,
    the last thing the run does is to release [id] for [fs], and it returns
    an error; the ledger of [fs] is then what it was before the run, and a
    later run of [Provision] that asks the allocator for an identity of [fs]
    in [[lo, hi]] is answered [id] again. *)
Theorem C2_release_on_remote_failure (w : World)
    (a : AccessPointProvisioner.AccessPointProvisioner)
    (req : CreateVolumeRequest) (st : State) (fs : string) (lo hi id : Z) :
  let run := AccessPointProvisioner.Provision w a req st in
  In (EvGetNextGid fs lo hi (inr id)) (newEvents st run.2) →
  (∃ n o e, In (EvCreateAccessPoint n o (inl e)) (newEvents st run.2)) →
  (∃ pre n o e,
     newEvents st run.2
     = pre ++ [ EvGetNextGid fs lo hi (inr id);
                EvCreateAccessPoint n o (inl e);
                EvReleaseGid fs id ])
  ∧ (∃ s, run.1 = inl s)
  ∧ heldGids (gids run.2) fs = heldGids (gids st) fs
  ∧ ∀ (w2 : World) (a2 : AccessPointProvisioner.AccessPointProvisioner)
      (req2 : CreateVolumeRequest) (r : Status + Z),
      In (EvGetNextGid fs lo hi r)
         (newEvents run.2
            (AccessPointProvisioner.Provision w2 a2 req2 run.2).2) →
      r = inr id.
Proof.
  intros run Hacq (n & o & ce & Hfail).
  pose proof (Provision_acquire_event w a req st fs lo hi (inr id) Hacq)
    as Hid.
  destruct (getNextGid (gids st) fs lo hi) as [r0 g1] eqn:Hn.
  simpl in Hid. subst r0.
  assert (heldGids (gids run.2) fs = heldGids (gids st) fs
          → ∀ w2 a2 req2 r,
              In (EvGetNextGid fs lo hi r)
                (newEvents run.2
                   (AccessPointProvisioner.Provision w2 a2 req2 run.2).2) →
              r = inr id) as Hagain.
  { intros Hheld w2 a2 req2 r Hin.
    apply Provision_acquire_event in Hin. rewrite Hin.
    rewrite (getNextGid_ext _ (gids st) fs lo hi Hheld). by rewrite Hn. }
  revert Hacq Hfail Hagain. subst run.
  destruct (AccessPointProvisioner.validateParams req) as [e|v] eqn:Hv.
  { rewrite (Provision_invalid _ _ _ _ _ Hv). simpl.
    destruct st; rewrite newEvents_same. done. }
  destruct (Provision_run w a req st v Hv) as (pre & Hpre & Hrun).
  destruct Hrun as [[e ->]|[(e & ce' & ->)|(c & role & ->)]]; simpl.
  - rewrite newEvents_app. intros Hin. split_in.
  - rewrite newEvents_app. intros Hin. split_in.
  - set (st1 := mkState _ _).
    destruct (getNextGid (gids st1) (vFsId v) (vGidMin v) (vGidMax v))
      as [r1 g1'] eqn:Hn1.
    destruct (allocateAndCreate_run a req v c role st1 r1 g1' Hn1)
      as [(e & _ & -> & ->)|(acq & g & uid & gid & Hcase & Hcr)];
      simpl; rewrite <- ?app_assoc; simpl; rewrite ?newEvents_app.
    + intros _ Hin. split_in.
    + cbv zeta in Hcr.
      destruct Hcr as [(s & ce' & ->)|(vol & ap & post & -> & _ & Hpost)];
        simpl; rewrite <- ?app_assoc; simpl; rewrite ?newEvents_app;
        intros Hin Hin';
        destruct Hcase as [(_ & -> & _)|(id' & Hneed & -> & -> & -> & _ & ->)];
        try (split_in; fail).
      intros Hagain.
      assert (vFsId v = fs ∧ vGidMin v = lo ∧ vGidMax v = hi ∧ id' = id)
        as (<- & <- & <- & ->) by (clear Hin'; split_in; done).
      assert (vGid v = -1) as Hgid.
      { apply orb_true_iff in Hneed as [Hu%Z.eqb_eq|Hg%Z.eqb_eq]; [|done].
        by apply (validated_uid_missing req v Hv). }
      rewrite Hgid in *. simpl in *.
      simpl in Hn1. rewrite Hn in Hn1. injection Hn1 as <-.
      assert (heldGids (releaseGid g1 (vFsId v) id) (vFsId v)
              = heldGids (gids st) (vFsId v)) as Hheld
        by (by eapply release_after_acquire).
      split; [|split; [by eexists|split; [done|by apply Hagain]]].
      exists (pre ++ [EvDescribeFileSystem (vFsId v) None]).
      eexists _, _, _. rewrite <- app_assoc. reflexivity.
Qed.

(** The run of the specification: no uid, no gid, the range 1000 to 2000,
    and a remote creation that fails. *)
Lemma C2_release_on_remote_failure_witness :
  let run := AccessPointProvisioner.Provision Mocks.world Mocks.apFailing
               Mocks.reqNoIdentity Mocks.st0 in
  (∃ pre n o e,
     newEvents Mocks.st0 run.2
     = pre ++ [ EvGetNextGid "fs-1" 1000 2000 (inr 1000);
                EvCreateAccessPoint n o (inl e);
                EvReleaseGid "fs-1" 1000 ])
  ∧ (∃ s, run.1 = inl s)
  ∧ heldGids (gids run.2) "fs-1" = heldGids (gids Mocks.st0) "fs-1"
  ∧ ∀ (w2 : World) (a2 : AccessPointProvisioner.AccessPointProvisioner)
      (req2 : CreateVolumeRequest) (r : Status + Z),
      In (EvGetNextGid "fs-1" 1000 2000 r)
         (newEvents run.2
            (AccessPointProvisioner.Provision w2 a2 req2 run.2).2) →
      r = inr 1000.
Proof.
  apply (C2_release_on_remote_failure Mocks.world Mocks.apFailing
           Mocks.reqNoIdentity Mocks.st0 "fs-1" 1000 2000 1000).
  - vm_compute. right. left. reflexivity.
  - eexists _, _, _. vm_compute. right. right. left. reflexivity.
Defined.

End ProvisionFacts.

(** ** The directory provisioner *)

Ltac unfold_dir :=
  unfold DirectoryProvisioner.Provision, DirectoryProvisioner.Delete,
    DirectoryProvisioner.prepare, DirectoryProvisioner.mountAndRemove,
    DirectoryProvisioner.deferredRemoveAll,
    DirectoryProvisioner.deferredUnmount, withDefer in *;
  unfold_monad; simpl in *.

Ltac normalise_trace st :=
  rewrite <- ?app_assoc in *; simpl in *;
  rewrite ?(newEvents_app st), ?(newEvents_same st) in *; simpl in *.

Ltac run_dir g0 t0 :=
  unfold_dir; repeat (case_match; simplify_eq/=);
  normalise_trace (mkState g0 t0).

Section DirectoryFacts.

Import DirectoryProvisioner.

(** When the creation of the directory fails, [Provision] returns at once:
    the failed creation is the last call, no unmount and no removal is
    attempted, and the error is [Internal]. *)
Lemma Provision_returns_on_mkdir_failure w d req uid gid st p perms u g err :
  let run := Provision w d req uid gid st in
  In (EvMkDirAllWithPerms p perms u g (Some err)) (newEvents st run.2) →
  (∃ pre fs target opts,
     newEvents st run.2
     = pre ++ [ EvMakeDir target None;
                EvMount fs target "efs" opts None;
                EvMkDirAllWithPerms p perms u g (Some err) ]
     ∧ ∀ ev, In ev pre →
         ∀ t r, ev ≠ EvUnmount t r ∧ ev ≠ EvRemoveAll t r)
  ∧ run.1 = inl (mkStatus Internal "Could not provision directory: %v").
Proof.
  intros run. subst run. destruct st as [g0 t0].
  run_dir g0 t0; intros Hin; split_in.
  split; [|done].
  eexists [_; _; _], _, _, _. split; [reflexivity|].
  intros ev Hev t r. split_in; by repeat split.
Qed.

(** When the mount and the creation of the directory succeed, the unmount
    of the temporary mount-point is the next call, and the removal of the
    mount-point follows when the unmount succeeded; when it failed,
    [Provision] returns without removing the mount-point. *)
Lemma Provision_cleans_up_after_mkdir w d req uid gid st p perms u g :
  let run := Provision w d req uid gid st in
  In (EvMkDirAllWithPerms p perms u g None) (newEvents st run.2) →
  ∃ pre fs target opts r post,
    newEvents st run.2
    = pre ++ EvMakeDir target None
          :: EvMount fs target "efs" opts None
          :: EvMkDirAllWithPerms p perms u g None
          :: EvUnmount target r :: post
    ∧ match r with
      | None => ∃ r', post = [EvRemoveAll target r']
      | Some _ =>
          post = []
          ∧ run.1 = inl (mkStatus Internal "Could not unmount %q: %v")
      end.
Proof.
  intros run. subst run. destruct st as [g0 t0].
  run_dir g0 t0; intros Hin; split_in.
  all: eexists [_; _; _], _, _, _, _, _; (split; [reflexivity|]);
    simpl; eauto.
Qed.

(** When the mount fails, [Provision] returns at once: nothing is done on
    directories, and the temporary mount-point is left as it is. *)
Lemma Provision_aborts_on_mount_failure w d req uid gid st fs target ty opts
    err :
  let run := Provision w d req uid gid st in
  In (EvMount fs target ty opts (Some err)) (newEvents st run.2) →
  (∃ pre,
     newEvents st run.2
     = pre ++ [ EvMakeDir target None; EvMount fs target ty opts (Some err) ]
     ∧ ∀ ev, In ev pre →
         ∀ p perms u g r t,
           ev ≠ EvMkDirAllWithPerms p perms u g r
           ∧ ev ≠ EvUnmount t r ∧ ev ≠ EvRemove t r ∧ ev ≠ EvRemoveAll t r)
  ∧ run.1 = inl (mkStatus Internal "Could not mount %q at %q: %v").
Proof.
  intros run. subst run. destruct st as [g0 t0].
  run_dir g0 t0; intros Hin; split_in.
  split; [|done].
  eexists [_; _; _]. split; [reflexivity|].
  intros ev Hev p perms u g r t. split_in; by repeat split.
Qed.

(** C6. In [Delete] with [deleteProvisionedDir] set, once the mount has
    succeeded and the removal of the provisioned directory
    [target + subpath] has failed, the calls that follow are the removal of
    the mount-point [target] and then its unmount, both attempted whatever
    the first of them answers, and [Delete] returns an [Internal] error. *)
Theorem C6_delete_cleans_up_after_failed_removal (w : World)
    (d : DirectoryProvisioner) (req : DeleteVolumeRequest) (st : State)
    (fs target : string) (opts : list string) (err : OpaqueError) :
  deleteProvisionedDir d = true →
  let run := Delete w d req st in
  let subpath := (parseVolumeId (DelVolumeId req)).1.2 in
  In (EvMount fs target "efs" opts None) (newEvents st run.2) →
  In (EvRemoveAll (target +:+ subpath) (Some err)) (newEvents st run.2) →
  (∃ pre r0 r1 r2,
     newEvents st run.2
     = pre ++ [ EvMakeDir target None;
                EvMount fs target "efs" opts None;
                EvRemoveAll (target +:+ subpath) r0;
                EvRemoveAll target r1;
                EvUnmount target r2 ]
     ∧ (r0 = Some err ∨ r1 = Some err))
  ∧ ∃ fmt, run.1 = inl (mkStatus Internal fmt).
Proof.
  intros Hdel run subpath. subst run subpath.
  destruct st as [g0 t0]. unfold Delete. rewrite Hdel. simpl.
  destruct (parseVolumeId (DelVolumeId req)) as [[fileSystemId subpath] ap].
  simpl. run_dir g0 t0; intros Hm Hr; split_in.
  all: split; [|by eexists].
  all: eexists [_; _; _], _, _, _; (split; [reflexivity|]); auto.
Qed.

(** The test "Fail: Cannot delete contents of provisioned directory": the
    mounter succeeds and every call to the OS client fails. *)
Lemma C6_delete_cleans_up_after_failed_removal_witness :
  let run := Delete Mocks.world
               (Mocks.dirProvisioner (Mocks.mockMounter None None)
                  BrokenOsClient true)
               Mocks.delRequest Mocks.st0 in
  (∃ pre r0 r1 r2,
     newEvents Mocks.st0 run.2
     = pre ++ [ EvMakeDir "/var/lib/csi/pv/uuid-1" None;
                EvMount "fs-abcd1234" "/var/lib/csi/pv/uuid-1" "efs"
                  [ "tls"; "iam" ] None;
                EvRemoveAll
                  ("/var/lib/csi/pv/uuid-1"
                   +:+ (parseVolumeId (DelVolumeId Mocks.delRequest)).1.2) r0;
                EvRemoveAll "/var/lib/csi/pv/uuid-1" r1;
                EvUnmount "/var/lib/csi/pv/uuid-1" r2 ]
     ∧ (r0 = Some "os.PathError" ∨ r1 = Some "os.PathError"))
  ∧ ∃ fmt, run.1 = inl (mkStatus Internal fmt).
Proof.
  apply (C6_delete_cleans_up_after_failed_removal Mocks.world
           (Mocks.dirProvisioner (Mocks.mockMounter None None)
              BrokenOsClient true)
           Mocks.delRequest Mocks.st0 "fs-abcd1234" "/var/lib/csi/pv/uuid-1"
           [ "tls"; "iam" ] "os.PathError").
  - reflexivity.
  - vm_compute. do 4 right. left. reflexivity.
  - vm_compute. do 5 right. left. reflexivity.
Defined.

(** C5. When the mount succeeds and the creation of the directory fails,
    [Provision] makes no further call: the temporary mount-point is neither
    unmounted nor removed.  The run is the one of the test "Fail: Could not
    create directory after mounting root". *)
Theorem C5_mount_left_after_mkdir_failure :
  let run := Provision Mocks.world
               (Mocks.dirProvisioner (Mocks.mockMounter None None)
                  BrokenOsClient false)
               Mocks.dirRequest 1000 1000 Mocks.st0 in
  newEvents Mocks.st0 run.2
  = [ EvGetCloud None;
      EvGetMountOptions "fs-abcd1234" "" (inr [ "tls"; "iam" ]);
      EvUuidNew "uuid-1";
      EvMakeDir "/var/lib/csi/pv/uuid-1" None;
      EvMount "fs-abcd1234" "/var/lib/csi/pv/uuid-1" "efs" [ "tls"; "iam" ]
        None;
      EvMkDirAllWithPerms "/var/lib/csi/pv/uuid-1/dynamic/volumeName" 511
        1000 1000 (Some "os.PathError") ]
  ∧ run.1 = inl (mkStatus Internal "Could not provision directory: %v").
Proof. split; by vm_compute. Qed.

End DirectoryFacts.

(** * Further properties *)

(** Hypotheses are taken apart down to their atoms. *)
Ltac split_all :=
  repeat (split_in;
          match goal with
          | H : _ ∧ _ |- _ => destruct H as [? ?]
          end);
  split_in.

(** A list given element by element is matched against [pre ++ x :: post]. *)
Ltac peel_prefix :=
  repeat match goal with
    | H : _ :: _ = ?p ++ _ :: _ |- _ => destruct p; simplify_eq/=
    | H : [] = ?p ++ _ :: _ |- _ => destruct p; discriminate H
    | H : ?p ++ _ :: _ = _ :: _ |- _ => destruct p; simplify_eq/=
    | H : ?p ++ _ :: _ = [] |- _ => destruct p; discriminate H
    end.

(** A list given element by element is matched against [pre ++ [x]]:
    the hypothesis becomes the equation of the last elements. *)
Ltac last_of H :=
  match type of H with
  | ?L = ?pre ++ [?c] =>
      let l := eval simpl in (removelast L) in
      let x := eval simpl in (List.last L c) in
      change L with (l ++ [x]) in H;
      apply app_inj_tail in H as [_ H]
  | [] = ?pre ++ [_] => destruct pre; discriminate H
  end.

(** ** More on the tag parser *)

Section TagParserMore.

Import TagParser.

Lemma runes_app (s t : string) : runes (s +:+ t) = runes s ++ runes t.
Proof.
  induction s as [|c s IH]; [reflexivity|].
  rewrite app_cons. simpl. by rewrite IH.
Qed.

Lemma ofRunes_app (l1 l2 : list rune) :
  ofRunes (l1 ++ l2) = ofRunes l1 +:+ ofRunes l2.
Proof.
  induction l1 as [|c l1 IH]; [reflexivity|].
  simpl. by rewrite IH.
Qed.

Lemma app_assoc_string (s t u : string) : (s +:+ t) +:+ u = s +:+ (t +:+ u).
Proof.
  induction s as [|c s IH]; [reflexivity|]. by rewrite !app_cons, IH.
Qed.

(** Runes that do not end a token are copied to the accumulator: outside
    quotes, runes that are neither quote nor space; inside quotes, runes
    that are not a quote. *)
Lemma pairsLoop_copy (chars : list rune) (result : list string)
    (accumulator : string) (literal : bool) :
  forallb (fun c => if literal then quotedRune c else valueRune c) chars
    = true →
  pairsLoop chars result accumulator literal
    = (result, accumulator +:+ ofRunes chars).
Proof.
  revert accumulator.
  induction chars as [|c rest IH]; intros accumulator Hc; simpl.
  - by rewrite app_empty_r.
  - simpl in Hc. apply andb_prop in Hc as [Hc Hrest].
    destruct literal; unfold quotedRune, valueRune in Hc.
    + apply negb_true_iff in Hc. rewrite Hc.
      destruct (Ascii.eqb c SPACE); rewrite IH by done; by rewrite app_snoc.
    + apply andb_prop in Hc as [Hq Hs].
      apply negb_true_iff in Hq, Hs. rewrite Hq, Hs, IH by done.
      by rewrite app_snoc.
Qed.

Lemma pairsLoop_copy_outside (chars : list rune) (result : list string)
    (accumulator : string) :
  forallb valueRune chars = true →
  pairsLoop chars result accumulator false
    = (result, accumulator +:+ ofRunes chars).
Proof. intros H. by apply (pairsLoop_copy chars result accumulator false). Qed.

Lemma pairsLoop_copy_inside (chars : list rune) (result : list string)
    (accumulator : string) :
  forallb quotedRune chars = true →
  pairsLoop chars result accumulator true
    = (result, accumulator +:+ ofRunes chars).
Proof. intros H. by apply (pairsLoop_copy chars result accumulator true). Qed.

Lemma pairsLoop_app (c1 c2 : list rune) (result : list string)
    (accumulator : string) (literal : bool) :
  pairsLoop (c1 ++ c2) result accumulator literal
  = let '(result', accumulator') := pairsLoop c1 result accumulator literal in
    pairsLoop c2 result' accumulator' (literalAfter c1 literal).
Proof.
  revert result accumulator literal.
  induction c1 as [|c c1 IH]; intros result accumulator literal; simpl.
  - reflexivity.
  - destruct (Ascii.eqb c QUOTE); [apply IH|].
    destruct (Ascii.eqb c SPACE); [|apply IH].
    destruct literal; apply IH.
Qed.

Lemma pairsLoop_result_prefix (chars : list rune) (pre result : list string)
    (accumulator : string) (literal : bool) :
  pairsLoop chars (pre ++ result) accumulator literal
  = let '(r, a) := pairsLoop chars result accumulator literal in (pre ++ r, a).
Proof.
  revert result accumulator literal.
  induction chars as [|c rest IH]; intros result accumulator literal; simpl.
  - reflexivity.
  - destruct (Ascii.eqb c QUOTE); [apply IH|].
    destruct (Ascii.eqb c SPACE); [|apply IH].
    destruct literal; [apply IH|]. rewrite <- app_assoc. apply IH.
Qed.

(** On runes of a bare key followed by a colon, the key loop stops at the
    colon with the runes as the key. *)
Lemma keyLoop_bare_key (pre rest : list rune) (i : Z) (key : string) :
  forallb keyRune pre = true →
  keyLoop (pre ++ COLON :: rest) i key false
    = (key +:+ ofRunes pre, false, i + Z.of_nat (length pre)).
Proof.
  revert i key. induction pre as [|c pre IH]; intros i key Hp.
  - simpl. rewrite app_empty_r. f_equal; try reflexivity. lia.
  - simpl in Hp. apply andb_prop in Hp as [Hc Hp]. unfold keyRune in Hc.
    apply andb_prop in Hc as [[Hq Hcol]%andb_prop _].
    apply negb_true_iff in Hq, Hcol.
    change ((c :: pre) ++ COLON :: rest) with (c :: pre ++ COLON :: rest).
    cbn [keyLoop]. rewrite Hq, Hcol, IH by done. rewrite app_snoc.
    f_equal; try reflexivity. simpl length. lia.
Qed.

Lemma tagsLoop_app (l1 l2 : list string) (m : gmap string string) :
  tagsLoop (l1 ++ l2) m = tagsLoop l2 (tagsLoop l1 m).
Proof.
  revert m. induction l1 as [|t l1 IH]; intros m; simpl; [done|].
  by destruct (extractKeyAndValueFromRawPair t) as [|[k v]].
Qed.

Lemma forallb_keyRune_valueRune (l : list rune) :
  forallb keyRune l = true → forallb valueRune l = true.
Proof.
  induction l as [|c l IH]; simpl; [done|].
  intros [Hc Hl]%andb_prop. rewrite IH by done.
  unfold keyRune in Hc. unfold valueRune.
  apply andb_prop in Hc as [[-> _]%andb_prop ->]. done.
Qed.

Lemma stripTrailingQuote_snoc (v : string) :
  stripTrailingQuote (v +:+ str1 QUOTE) = v.
Proof.
  unfold stripTrailingQuote. rewrite runes_app. simpl.
  rewrite rev_app_distr. simpl. rewrite rev_involutive.
  apply ofRunes_runes.
Qed.

Lemma stripLeadingQuote_bare (v : string) :
  forallb quotedRune (runes v) = true → stripLeadingQuote v = v.
Proof.
  destruct v as [|c v]; [done|]. simpl.
  intros [Hc _]%andb_prop. unfold quotedRune in Hc.
  apply negb_true_iff in Hc. by rewrite Hc.
Qed.

Lemma stripTrailingQuote_bare (v : string) :
  forallb quotedRune (runes v) = true → stripTrailingQuote v = v.
Proof.
  intros Hv. unfold stripTrailingQuote.
  destruct (rev (runes v)) as [|c l] eqn:Hrev; [done|].
  assert (quotedRune c = true) as Hc.
  { rewrite forallb_forall in Hv. apply Hv, in_rev. rewrite Hrev. by left. }
  unfold quotedRune in Hc. apply negb_true_iff in Hc. by rewrite Hc.
Qed.

Lemma forallb_valueRune_quotedRune (l : list rune) :
  forallb valueRune l = true → forallb quotedRune l = true.
Proof.
  induction l as [|c l IH]; simpl; [done|].
  intros [Hc Hl]%andb_prop. rewrite IH by done.
  unfold valueRune in Hc. unfold quotedRune.
  by apply andb_prop in Hc as [-> _].
Qed.

(** What is extracted from a bare key, a colon and any value. *)
Lemma extract_bare_key (k value : string) :
  k ≠ EmptyString → forallb keyRune (runes k) = true →
  extractKeyAndValueFromRawPair (k +:+ String COLON value)
    = inr (k, stripTrailingQuote (stripLeadingQuote value)).
Proof.
  intros Hne Hk. unfold extractKeyAndValueFromRawPair.
  rewrite runes_app. change (runes (String COLON value))
    with (COLON :: runes value).
  rewrite keyLoop_bare_key by done.
  change (EmptyString +:+ ofRunes (runes k)) with (ofRunes (runes k)).
  rewrite ofRunes_runes. apply String.eqb_neq in Hne. rewrite Hne.
  replace (Z.to_nat (0 + Z.of_nat (length (runes k)) + 1))
    with (length (runes k) + 1)%nat by lia.
  rewrite <- drop_drop, drop_app_length. simpl. rewrite drop_0.
  by rewrite ofRunes_runes.
Qed.

(** X1. A bare pair [key:value] is parsed to the mapping of [key] to
    [value], when the key is not empty and has no quote, colon or space and
    the value has no quote and no space (it may have colons). *)
Theorem parse_bare_pair (k v : string) :
  k ≠ EmptyString →
  forallb keyRune (runes k) = true →
  forallb valueRune (runes v) = true →
  parseTagsFromStr (k +:+ ":" +:+ v) = {[ k := v ]}.
Proof.
  intros Hne Hk Hv. unfold parseTagsFromStr.
  change (":" +:+ v) with (String COLON v).
  assert (k +:+ String COLON v ≠ EmptyString) as Hne'.
  { destruct k; [done|]. by rewrite app_cons. }
  apply String.eqb_neq in Hne'. rewrite Hne'.
  unfold extractPairsFromRawString.
  rewrite pairsLoop_copy_outside.
  2:{ rewrite runes_app, forallb_app.
      rewrite (forallb_keyRune_valueRune _ Hk). simpl. by rewrite Hv. }
  change (EmptyString +:+ ofRunes (runes (k +:+ String COLON v)))
    with (ofRunes (runes (k +:+ String COLON v))).
  rewrite ofRunes_runes, Hne'. simpl.
  rewrite extract_bare_key by done.
  apply forallb_valueRune_quotedRune in Hv.
  by rewrite stripLeadingQuote_bare, stripTrailingQuote_bare.
Qed.

Lemma parse_bare_pair_witness :
  parseTagsFromStr ("env" +:+ ":" +:+ "prod:eu") = {[ "env" := "prod:eu" ]}.
Proof. apply (parse_bare_pair "env" "prod:eu"); [done|reflexivity..]. Defined.

(** X2. A pair whose value is wrapped in single quotes is parsed to the
    mapping of the key to what is between the quotes, spaces and colons
    included, when the key is a bare key and the value has no quote. *)
Theorem parse_quoted_pair (k v : string) :
  k ≠ EmptyString →
  forallb keyRune (runes k) = true →
  forallb quotedRune (runes v) = true →
  parseTagsFromStr (k +:+ ":'" +:+ v +:+ "'") = {[ k := v ]}.
Proof.
  intros Hne Hk Hv. unfold parseTagsFromStr.
  change (":'" +:+ v +:+ "'") with (String COLON (String QUOTE (v +:+ "'"))).
  set (value := String QUOTE (v +:+ "'")).
  assert (k +:+ String COLON value ≠ EmptyString) as Hne'.
  { destruct k; [done|]. by rewrite app_cons. }
  apply String.eqb_neq in Hne'. rewrite Hne'.
  unfold extractPairsFromRawString.
  assert (pairsLoop (runes (k +:+ String COLON value)) [] EmptyString false
          = ([], k +:+ String COLON value)) as ->.
  { rewrite runes_app.
    change (runes (String COLON value))
      with ([COLON; QUOTE] ++ runes (v +:+ "'")).
    rewrite runes_app. change (runes "'") with [QUOTE].
    rewrite pairsLoop_app, pairsLoop_copy_outside
      by (by apply forallb_keyRune_valueRune).
    assert (literalAfter (runes k) false = false) as ->.
    { clear -Hk. induction (runes k) as [|c l IH]; [done|].
      simpl in *. apply andb_prop in Hk as [Hc Hl]. unfold keyRune in Hc.
      apply andb_prop in Hc as [[Hq _]%andb_prop _].
      apply negb_true_iff in Hq. rewrite Hq. by apply IH. }
    cbn [app pairsLoop]. change (Ascii.eqb COLON QUOTE) with false.
    change (Ascii.eqb COLON SPACE) with false.
    change (Ascii.eqb QUOTE QUOTE) with true. cbv iota. simpl negb.
    rewrite pairsLoop_app, pairsLoop_copy_inside by done.
    assert (literalAfter (runes v) true = true) as ->.
    { clear -Hv. induction (runes v) as [|c l IH]; [done|].
      simpl in *. apply andb_prop in Hv as [Hc Hl]. unfold quotedRune in Hc.
      apply negb_true_iff in Hc. rewrite Hc. by apply IH. }
    cbn [pairsLoop]. change (Ascii.eqb QUOTE QUOTE) with true. cbv iota.
    f_equal. change (EmptyString +:+ ofRunes (runes k))
      with (ofRunes (runes k)).
    rewrite !ofRunes_runes. unfold value.
    rewrite !app_assoc_string. reflexivity. }
  rewrite Hne'. simpl. rewrite extract_bare_key by done.
  unfold value. simpl. change (Ascii.eqb QUOTE QUOTE) with true. cbv iota.
  change "'" with (str1 QUOTE). by rewrite stripTrailingQuote_snoc.
Qed.

Lemma parse_quoted_pair_witness :
  parseTagsFromStr ("owner" +:+ ":'" +:+ "team a:b" +:+ "'")
    = {[ "owner" := "team a:b" ]}.
Proof.
  apply (parse_quoted_pair "owner" "team a:b"); [done|reflexivity..].
Defined.

Lemma literalAfter_bare (l : list rune) :
  forallb valueRune l = true → literalAfter l false = false.
Proof.
  induction l as [|c l IH]; [done|].
  simpl. intros [Hc Hl]%andb_prop. unfold valueRune in Hc.
  apply andb_prop in Hc as [Hq _]. apply negb_true_iff in Hq.
  rewrite Hq. by apply IH.
Qed.

Lemma literalAfter_inside (l : list rune) :
  forallb quotedRune l = true → literalAfter l true = true.
Proof.
  induction l as [|c l IH]; [done|].
  simpl. intros [Hc Hl]%andb_prop. unfold quotedRune in Hc.
  apply negb_true_iff in Hc. rewrite Hc. by apply IH.
Qed.

(** Inside quotes and up to the next quote, the key loop copies every rune,
    colons included, to the key. *)
Lemma keyLoop_inside (chars : list rune) (i : Z) (key : string) :
  forallb quotedRune chars = true →
  keyLoop chars i key true = (key +:+ ofRunes chars, true, -1).
Proof.
  revert i key. induction chars as [|c rest IH]; intros i key; simpl.
  - by rewrite app_empty_r.
  - intros [Hc Hrest]%andb_prop. unfold quotedRune in Hc.
    apply negb_true_iff in Hc. rewrite Hc.
    destruct (Ascii.eqb c COLON); rewrite IH by done; by rewrite app_snoc.
Qed.

(** X3. A quote that opens after the colon and is never closed is not an
    error: everything after it, spaces and further pairs included, is the
    value of the key. *)
Theorem parse_unterminated_value_quote (k v : string) :
  k ≠ EmptyString →
  forallb keyRune (runes k) = true →
  forallb quotedRune (runes v) = true →
  parseTagsFromStr (k +:+ ":'" +:+ v) = {[ k := v ]}.
Proof.
  intros Hne Hk Hv. unfold parseTagsFromStr.
  change (":'" +:+ v) with (String COLON (String QUOTE v)).
  set (value := String QUOTE v).
  assert (k +:+ String COLON value ≠ EmptyString) as Hne'.
  { destruct k; [done|]. by rewrite app_cons. }
  apply String.eqb_neq in Hne'. rewrite Hne'.
  unfold extractPairsFromRawString.
  assert (pairsLoop (runes (k +:+ String COLON value)) [] EmptyString false
          = ([], k +:+ String COLON value)) as ->.
  { rewrite runes_app.
    change (runes (String COLON value)) with ([COLON; QUOTE] ++ runes v).
    rewrite pairsLoop_app, pairsLoop_copy_outside
      by (by apply forallb_keyRune_valueRune).
    rewrite literalAfter_bare by (by apply forallb_keyRune_valueRune).
    cbn [app pairsLoop]. change (Ascii.eqb COLON QUOTE) with false.
    change (Ascii.eqb COLON SPACE) with false.
    change (Ascii.eqb QUOTE QUOTE) with true. cbv iota. simpl negb.
    rewrite pairsLoop_copy_inside by done.
    f_equal. change (EmptyString +:+ ofRunes (runes k))
      with (ofRunes (runes k)).
    rewrite !ofRunes_runes. unfold value.
    rewrite !app_assoc_string. reflexivity. }
  rewrite Hne'. simpl. rewrite extract_bare_key by done.
  unfold value. simpl. change (Ascii.eqb QUOTE QUOTE) with true. cbv iota.
  by rewrite stripTrailingQuote_bare.
Qed.

Lemma parse_unterminated_value_quote_witness :
  parseTagsFromStr ("a" +:+ ":'" +:+ "x y b:c") = {[ "a" := "x y b:c" ]}.
Proof.
  apply (parse_unterminated_value_quote "a" "x y b:c"); [done|reflexivity..].
Defined.

(** X4. A quote that opens before any colon outside quotes and is never
    closed takes the rest of the string into one token, which is rejected
    for its unmatched quote: nothing is parsed. *)
Theorem parse_unterminated_key_quote (k rest : string) :
  forallb keyRune (runes k) = true →
  forallb quotedRune (runes rest) = true →
  extractPairsFromRawString (k +:+ "'" +:+ rest) = [ k +:+ "'" +:+ rest ]
  ∧ extractKeyAndValueFromRawPair (k +:+ "'" +:+ rest)
    = inl ErrUnmatchedQuotes
  ∧ parseTagsFromStr (k +:+ "'" +:+ rest) = ∅.
Proof.
  intros Hk Hrest.
  change ("'" +:+ rest) with (String QUOTE rest).
  assert (k +:+ String QUOTE rest ≠ EmptyString) as Hne.
  { destruct k; [done|]. by rewrite app_cons. }
  apply String.eqb_neq in Hne.
  assert (extractPairsFromRawString (k +:+ String QUOTE rest)
          = [ k +:+ String QUOTE rest ]) as Htok.
  { unfold extractPairsFromRawString. rewrite runes_app.
    change (runes (String QUOTE rest)) with ([QUOTE] ++ runes rest).
    rewrite pairsLoop_app, pairsLoop_copy_outside
      by (by apply forallb_keyRune_valueRune).
    rewrite literalAfter_bare by (by apply forallb_keyRune_valueRune).
    cbn [app pairsLoop]. change (Ascii.eqb QUOTE QUOTE) with true.
    cbv iota. simpl negb. rewrite pairsLoop_copy_inside by done.
    change (EmptyString +:+ ofRunes (runes k)) with (ofRunes (runes k)).
    rewrite !ofRunes_runes, app_assoc_string.
    change (str1 QUOTE +:+ rest) with (String QUOTE rest).
    by rewrite Hne. }
  assert (extractKeyAndValueFromRawPair (k +:+ String QUOTE rest)
          = inl ErrUnmatchedQuotes) as Hex.
  { unfold extractKeyAndValueFromRawPair. rewrite runes_app.
    change (runes (String QUOTE rest)) with (QUOTE :: runes rest).
    assert (∀ pre i key, forallb keyRune pre = true →
              keyLoop (pre ++ QUOTE :: runes rest) i key false
              = ((key +:+ ofRunes pre) +:+ rest, true, -1)) as Hloop.
    { induction pre as [|c pre IH]; intros i key Hp.
      - simpl. change (Ascii.eqb QUOTE QUOTE) with true. cbv iota.
        simpl negb. rewrite keyLoop_inside by done.
        by rewrite ofRunes_runes, app_empty_r.
      - simpl in Hp. apply andb_prop in Hp as [Hc Hp]. unfold keyRune in Hc.
        apply andb_prop in Hc as [[Hq Hcol]%andb_prop _].
        apply negb_true_iff in Hq, Hcol.
        change ((c :: pre) ++ QUOTE :: runes rest)
          with (c :: pre ++ QUOTE :: runes rest).
        cbn [keyLoop]. rewrite Hq, Hcol, IH by done.
        by rewrite app_snoc. }
    by rewrite Hloop. }
  split; [done|]. split; [done|].
  unfold parseTagsFromStr. rewrite Hne, Htok. simpl. by rewrite Hex.
Qed.

Lemma parse_unterminated_key_quote_witness :
  extractPairsFromRawString ("a" +:+ "'" +:+ "x:1 b:2")
    = [ "a" +:+ "'" +:+ "x:1 b:2" ]
  ∧ extractKeyAndValueFromRawPair ("a" +:+ "'" +:+ "x:1 b:2")
    = inl ErrUnmatchedQuotes
  ∧ parseTagsFromStr ("a" +:+ "'" +:+ "x:1 b:2") = ∅.
Proof.
  apply (parse_unterminated_key_quote "a" "x:1 b:2"); reflexivity.
Defined.

(** The key loop never puts a quote into the key. *)
Lemma keyLoop_no_quote (chars : list rune) (i : Z) (key : string)
    (literal : bool) :
  forallb quotedRune (runes key) = true →
  forallb quotedRune (runes (keyLoop chars i key literal).1.1) = true.
Proof.
  revert i key literal.
  induction chars as [|c rest IH]; intros i key literal Hkey; simpl; [done|].
  destruct (Ascii.eqb c QUOTE) eqn:Hq; [by apply IH|].
  assert (forallb quotedRune (runes (key +:+ str1 c)) = true) as Hkey'.
  { rewrite runes_app, forallb_app, Hkey. simpl. unfold quotedRune.
    by rewrite Hq. }
  destruct (Ascii.eqb c COLON); [|by apply IH].
  destruct literal; [by apply IH|done].
Qed.

(** X5. Whatever the token, a key that is extracted is not empty and has no
    quote in it. *)
Theorem extracted_key_well_formed (token k v : string) :
  extractKeyAndValueFromRawPair token = inr (k, v) →
  k ≠ EmptyString ∧ forallb quotedRune (runes k) = true.
Proof.
  unfold extractKeyAndValueFromRawPair.
  pose proof (keyLoop_no_quote (runes token) 0 EmptyString false eq_refl)
    as Hq.
  destruct (keyLoop (runes token) 0 EmptyString false)
    as [[key literal] finalKeyIndex].
  simpl in Hq. destruct literal; [done|].
  destruct (String.eqb key EmptyString) eqn:He; [done|].
  intros [= <- _]. by apply String.eqb_neq in He.
Qed.

Lemma extracted_key_well_formed_witness :
  "a b" ≠ EmptyString ∧ forallb quotedRune (runes "a b") = true.
Proof.
  apply (extracted_key_well_formed "'a b':'c'" "a b" "c"). reflexivity.
Defined.

(** The tokens of [a], a space and [b], for a string [a] whose quotes come
    in pairs: the tokens of [a] with what was accumulated at its end, empty
    or not, then the tokens of [b]. *)
Lemma extractPairs_space (a b : string) :
  balanced a = true →
  ∃ extra,
    (extra = [] ∨ extra = [EmptyString])
    ∧ extractPairsFromRawString (a +:+ " " +:+ b)
      = extractPairsFromRawString a ++ extra ++ extractPairsFromRawString b.
Proof.
  unfold balanced. intros Hbal%negb_true_iff.
  unfold extractPairsFromRawString. rewrite runes_app.
  change (runes (" " +:+ b)) with ([SPACE] ++ runes b).
  rewrite pairsLoop_app, Hbal.
  destruct (pairsLoop (runes a) [] EmptyString false) as [ra acca].
  cbn [app pairsLoop]. change (Ascii.eqb SPACE QUOTE) with false.
  change (Ascii.eqb SPACE SPACE) with true. cbv iota.
  rewrite <- (app_nil_r (ra ++ [acca])), pairsLoop_result_prefix.
  destruct (pairsLoop (runes b) [] EmptyString false) as [rb accb].
  destruct (String.eqb acca EmptyString) eqn:Ha.
  - apply String.eqb_eq in Ha. subst acca. exists [EmptyString].
    split; [by right|].
    destruct (String.eqb accb EmptyString); by rewrite <- ?app_assoc.
  - exists []. split; [by left|].
    destruct (String.eqb accb EmptyString); by rewrite <- ?app_assoc.
Qed.

Lemma parse_as_tagsLoop (s : string) :
  parseTagsFromStr s = tagsLoop (extractPairsFromRawString s) ∅.
Proof.
  unfold parseTagsFromStr. destruct (String.eqb s EmptyString) eqn:He; [|done].
  apply String.eqb_eq in He. by subst s.
Qed.

(** The tokens of [a], a space and [b] are those of [a] followed by those of
    [b], up to an empty token that adds nothing. *)
Lemma parse_over_space (a b : string) :
  balanced a = true →
  parseTagsFromStr (a +:+ " " +:+ b)
    = tagsLoop (extractPairsFromRawString b) (parseTagsFromStr a).
Proof.
  intros Hbal. rewrite !parse_as_tagsLoop.
  destruct (extractPairs_space a b Hbal) as (extra & Hextra & ->).
  rewrite !tagsLoop_app. by destruct Hextra as [->| ->].
Qed.

(** X6. Parsing composes over a space that is outside quotes: when the
    quotes of [a] come in pairs, the mapping of [a], a space and [b] is the
    mapping of [a] with the pairs of [b] laid over it, in order. *)
Theorem parse_space_composes (a b : string) :
  balanced a = true →
  parseTagsFromStr (a +:+ " " +:+ b)
    = tagsLoop (extractPairsFromRawString b) (parseTagsFromStr a).
Proof.
  intros Hbal. rewrite !parse_as_tagsLoop.
  destruct (extractPairs_space a b Hbal) as (extra & Hextra & ->).
  rewrite !tagsLoop_app. by destruct Hextra as [->| ->].
Qed.

Lemma parse_space_composes_witness :
  parseTagsFromStr ("a:'x y'" +:+ " " +:+ "b:c")
    = tagsLoop (extractPairsFromRawString "b:c")
        (parseTagsFromStr "a:'x y'").
Proof. apply (parse_space_composes "a:'x y'" "b:c"). reflexivity. Defined.

(** X7. The last pair wins: adding a space and a bare pair [k:v] to a string
    whose quotes come in pairs sets [k] to [v] in its mapping, over any value
    [k] had, and leaves the other keys as they were. *)
Theorem parse_append_pair (a k v : string) :
  balanced a = true →
  k ≠ EmptyString →
  forallb keyRune (runes k) = true →
  forallb valueRune (runes v) = true →
  parseTagsFromStr (a +:+ " " +:+ k +:+ ":" +:+ v)
    = <[ k := v ]> (parseTagsFromStr a).
Proof.
  intros Hbal Hne Hk Hv. rewrite parse_over_space by done.
  change (":" +:+ v) with (String COLON v).
  assert (extractPairsFromRawString (k +:+ String COLON v)
          = [ k +:+ String COLON v ]) as ->.
  { unfold extractPairsFromRawString. rewrite pairsLoop_copy_outside.
    2:{ rewrite runes_app, forallb_app.
        rewrite (forallb_keyRune_valueRune _ Hk). simpl. by rewrite Hv. }
    change (EmptyString +:+ ofRunes (runes (k +:+ String COLON v)))
      with (ofRunes (runes (k +:+ String COLON v))).
    rewrite ofRunes_runes.
    assert (k +:+ String COLON v ≠ EmptyString) as Hne'.
    { destruct k; [done|]. by rewrite app_cons. }
    apply String.eqb_neq in Hne'. by rewrite Hne'. }
  simpl. rewrite extract_bare_key by done.
  apply forallb_valueRune_quotedRune in Hv.
  by rewrite stripLeadingQuote_bare, stripTrailingQuote_bare.
Qed.

Lemma parse_append_pair_witness :
  parseTagsFromStr ("a:'x y' b:c" +:+ " " +:+ "b" +:+ ":" +:+ "d")
    = <[ "b" := "d" ]> (parseTagsFromStr "a:'x y' b:c").
Proof.
  apply (parse_append_pair "a:'x y' b:c" "b" "d"); [reflexivity|done|reflexivity..].
Defined.

End TagParserMore.

(** ** More on the access-point provisioner *)

Section ProvisionMore.

Import AccessPointProvisioner.

(** The paths of [Provision] on a request that passes the validation, each
    with the events it adds, the ledgers it leaves and what it returns. *)
Lemma Provision_paths w a req st v :
  validateParams req = inr v →
  let role := default EmptyString (Secrets req !! RoleArn) in
  let fs := vFsId v in
  let lo := vGidMin v in
  let hi := vGidMax v in
  let need := (vUid v =? -1) || (vGid v =? -1) in
  ∃ evs res g,
    Provision w a req st = (res, mkState g (trace st ++ evs))
    ∧ ((* the role cannot be assumed *)
       (role ≠ EmptyString
        ∧ evs = [EvNewCloudWithRole role false] ∧ g = gids st
        ∧ ∃ fmt, res = inl (mkStatus Unauthenticated fmt))
       ∨ ∃ pre,
           ((role = EmptyString ∧ pre = [])
            ∨ (role ≠ EmptyString ∧ pre = [EvNewCloudWithRole role true]))
           ∧ ((* the filesystem cannot be described *)
              (∃ ce fmt,
                 evs = pre ++ [EvDescribeFileSystem fs (Some ce)]
                 ∧ g = gids st
                 ∧ res = inl (mkStatus
                                (match ce with
                                 | ErrAccessDenied => Unauthenticated
                                 | ErrNotFound => InvalidArgument
                                 | _ => Internal
                                 end) fmt))
              (* the range is exhausted *)
              ∨ (∃ e g1,
                   need = true
                   ∧ getNextGid (gids st) fs lo hi = (inl e, g1)
                   ∧ evs = pre ++ [EvDescribeFileSystem fs None;
                                   EvGetNextGid fs lo hi (inl e)]
                   ∧ g = g1 ∧ res = inl e)
              ∨ ∃ acq g0 uid gid,
                  ((need = false ∧ acq = [] ∧ g0 = gids st
                    ∧ uid = vUid v ∧ gid = vGid v)
                   ∨ (∃ id,
                        need = true
                        ∧ getNextGid (gids st) fs lo hi = (inr id, g0)
                        ∧ acq = [EvGetNextGid fs lo hi (inr id)]
                        ∧ uid = (if vUid v =? -1 then id else vUid v)
                        ∧ gid = (if vGid v =? -1 then id else vGid v)))
                  ∧ ((* the remote creation fails *)
                     (∃ ce fmt,
                        evs = pre ++ EvDescribeFileSystem fs None :: acq
                              ++ [EvCreateAccessPoint (Name req)
                                    (optionsOf a req v uid gid) (inl ce);
                                  EvReleaseGid fs gid]
                        ∧ g = releaseGid g0 fs gid
                        ∧ res = inl (mkStatus
                                       (match ce with
                                        | ErrAccessDenied => Unauthenticated
                                        | ErrAlreadyExists => AlreadyExists
                                        | _ => Internal
                                        end) fmt))
                     (* the remote creation succeeds *)
                     ∨ (∃ ap post ctx,
                          evs = pre ++ EvDescribeFileSystem fs None :: acq
                                ++ EvCreateAccessPoint (Name req)
                                     (optionsOf a req v uid gid) (inr ap)
                                   :: post
                          ∧ g = g0
                          ∧ res = inr {| CapacityBytes := RequiredBytes req;
                                         VolumeId :=
                                           encodeAccessPoint fs
                                             (AccessPointId ap);
                                         VolumeContext := ctx |}
                          ∧ ((role = EmptyString ∧ post = [] ∧ ctx = ∅)
                             ∨ (role ≠ EmptyString
                                ∧ ∃ r,
                                    post = [EvDescribeMountTargets fs
                                              (vAzName v) r]
                                    ∧ ctx = match r with
                                            | inl _ => ∅
                                            | inr mt =>
                                                {[ MountTargetIp :=
                                                     IPAddress mt ]}
                                            end)))))).
Proof.
  intros Hv role fs lo hi need. subst role fs lo hi need.
  destruct st as [g0 t0].
  unfold Provision. unfold_monad. rewrite Hv.
  unfold getCloud. unfold_monad. simpl.
  set (role := default EmptyString (Secrets req !! RoleArn)) in *.
  set (fs := vFsId v) in *. set (lo := vGidMin v) in *.
  set (hi := vGidMax v) in *.
  set (need := (vUid v =? -1) || (vGid v =? -1)) in *.
  destruct (String.eqb role EmptyString) eqn:Hrole; simpl.
  - apply String.eqb_eq in Hrole.
    (* the code below is shared with the other branch *)
    destruct (DescribeFileSystem (cloud a) t0 fs) as [ce|] eqn:Hd; simpl.
    { destruct ce; (eexists [_], _, _; split; [reflexivity|]);
        right; exists []; (split; [by left|]); left; by eexists _, _. }
    unfold allocateAndCreate. unfold_monad. rewrite resolveIdentity_eq.
    simpl. fold fs lo hi need.
    destruct (getNextGid g0 fs lo hi) as [r g1] eqn:Hn.
    destruct need eqn:Hneed; simpl.
    + destruct r as [e|id]; simpl.
      { eexists [_; _], _, _. split; [rewrite <- app_assoc; reflexivity|].
        right. exists []. split; [by left|]. right. left. by exists e, g1. }
      unfold createRemote, releaseGidM. unfold_monad. simpl.
      destruct (CreateAccessPoint (cloud a) _ _ _) as [ce|ap] eqn:Hc; simpl.
      * destruct ce; simpl;
          (eexists [_; _; _; _], _, _;
           split; [rewrite <- !app_assoc; reflexivity|]);
          right; exists []; (split; [by left|]); right; right;
          eexists [_], g1, _, _; (split; [right; by exists id|]);
          left; by eexists _, _.
      * rewrite Hrole. simpl.
        eexists [_; _; _], _, _.
        split; [rewrite <- !app_assoc; reflexivity|].
        right. exists []. split; [by left|]. right. right.
        eexists [_], g1, _, _. split; [right; by exists id|].
        right. exists ap, [], ∅. repeat split; try done. by left.
    + unfold createRemote, releaseGidM. unfold_monad. simpl.
      destruct (CreateAccessPoint (cloud a) _ _ _) as [ce|ap] eqn:Hc; simpl.
      * destruct ce; simpl;
          (eexists [_; _; _], _, _;
           split; [rewrite <- !app_assoc; reflexivity|]);
          right; exists []; (split; [by left|]); right; right;
          eexists [], g0, _, _; (split; [by left|]);
          left; by eexists _, _.
      * rewrite Hrole. simpl.
        eexists [_; _], _, _.
        split; [rewrite <- !app_assoc; reflexivity|].
        right. exists []. split; [by left|]. right. right.
        eexists [], g0, _, _. split; [by left|].
        right. exists ap, [], ∅. repeat split; try done. by left.
  - apply String.eqb_neq in Hrole.
    destruct (NewCloudWithRole w t0 role) as [c|] eqn:Hnew; simpl.
    2:{ eexists [_], _, _. split; [reflexivity|]. left.
        repeat split; try done. by eexists. }
    destruct (DescribeFileSystem c _ fs) as [ce|] eqn:Hd; simpl.
    { destruct ce;
        (eexists [_; _], _, _; split; [rewrite <- app_assoc; reflexivity|]);
        right; exists [EvNewCloudWithRole role true]; (split; [by right|]);
        left; by eexists _, _. }
    unfold allocateAndCreate. unfold_monad. rewrite resolveIdentity_eq.
    simpl. fold fs lo hi need.
    destruct (getNextGid g0 fs lo hi) as [r g1] eqn:Hn.
    assert (negb (String.eqb role EmptyString) = true) as Hrole'
      by (by apply negb_true_iff, String.eqb_neq).
    destruct need eqn:Hneed; simpl.
    + destruct r as [e|id]; simpl.
      { eexists [_; _; _], _, _. split; [rewrite <- !app_assoc; reflexivity|].
        right. exists [EvNewCloudWithRole role true]. split; [by right|].
        right. left. by exists e, g1. }
      unfold createRemote, releaseGidM. unfold_monad. simpl.
      destruct (CreateAccessPoint c _ _ _) as [ce|ap] eqn:Hc; simpl.
      * destruct ce; simpl;
          (eexists [_; _; _; _; _], _, _;
           split; [rewrite <- !app_assoc; reflexivity|]);
          right; exists [EvNewCloudWithRole role true];
          (split; [by right|]); right; right;
          eexists [_], g1, _, _; (split; [right; by exists id|]);
          left; by eexists _, _.
      * rewrite Hrole'. simpl.
        destruct (DescribeMountTargets c _ _ _) as [ce|mt] eqn:Hm; simpl.
        all: eexists [_; _; _; _; _], _, _;
          (split; [rewrite <- !app_assoc; reflexivity|]);
          right; exists [EvNewCloudWithRole role true];
          (split; [by right|]); right; right;
          eexists [_], g1, _, _; (split; [right; by exists id|]);
          right; eexists ap, [_], _; repeat split; try done;
          right; split; [done|]; by eexists.
    + unfold createRemote, releaseGidM. unfold_monad. simpl.
      destruct (CreateAccessPoint c _ _ _) as [ce|ap] eqn:Hc; simpl.
      * destruct ce; simpl;
          (eexists [_; _; _; _], _, _;
           split; [rewrite <- !app_assoc; reflexivity|]);
          right; exists [EvNewCloudWithRole role true];
          (split; [by right|]); right; right;
          eexists [], g0, _, _; (split; [by left|]);
          left; by eexists _, _.
      * rewrite Hrole'. simpl.
        destruct (DescribeMountTargets c _ _ _) as [ce|mt] eqn:Hm; simpl.
        all: eexists [_; _; _; _], _, _;
          (split; [rewrite <- !app_assoc; reflexivity|]);
          right; exists [EvNewCloudWithRole role true];
          (split; [by right|]); right; right;
          eexists [], g0, _, _; (split; [by left|]);
          right; eexists ap, [_], _; repeat split; try done;
          right; split; [done|]; by eexists.
Qed.

Lemma checkFsId_inr p fs :
  checkFsId p = inr fs → p !! FsId = Some fs ∧ isBlank fs = false.
Proof.
  unfold checkFsId. destruct (p !! FsId) as [s|]; [|done].
  destruct (isBlank s) eqn:Hb; [done|]. by intros [= <-].
Qed.

Lemma checkGidMin_inr p lo :
  checkGidMin p = inr lo →
  (p !! GidMin = None ∧ lo = 0)
  ∨ (∃ s, p !! GidMin = Some s ∧ Atoi s = Some lo ∧ 0 < lo).
Proof.
  unfold checkGidMin. destruct (p !! GidMin) as [s|]; [|intros [= <-]; by left].
  destruct (Atoi s) as [n|] eqn:Ha; [|done].
  destruct (n <=? 0) eqn:Hn; [done|]. intros [= <-].
  right. exists s. apply Z.leb_gt in Hn. auto.
Qed.

Lemma checkGidMax_inr p lo hi :
  checkGidMax p lo = inr hi →
  (p !! GidMax = None ∧ lo = 0 ∧ hi = 0)
  ∨ (∃ s, p !! GidMax = Some s ∧ lo ≠ 0 ∧ Atoi s = Some hi ∧ lo < hi).
Proof.
  unfold checkGidMax. destruct (p !! GidMax) as [s|].
  - destruct (lo =? 0) eqn:Hlo; [done|]. apply Z.eqb_neq in Hlo.
    destruct (Atoi s) as [n|] eqn:Ha; [|done].
    destruct (n <=? lo) eqn:Hn; [done|]. intros [= <-].
    right. exists s. apply Z.leb_gt in Hn. auto.
  - destruct (lo =? 0) eqn:Hlo; [|done]. apply Z.eqb_eq in Hlo.
    intros [= <-]. by left.
Qed.

(** What a request that passes the validation looks like. *)
Lemma validateParams_sound req v :
  validateParams req = inr v →
  Name req ≠ EmptyString
  ∧ checkFsId (Parameters req) = inr (vFsId v)
  ∧ checkUid (Parameters req) = inr (vUid v)
  ∧ checkGid (Parameters req) (vUid v) = inr (vGid v)
  ∧ (∃ lo hi,
       checkGidMin (Parameters req) = inr lo
       ∧ checkGidMax (Parameters req) lo = inr hi
       ∧ defaultRange lo hi = (vGidMin v, vGidMax v))
  ∧ vDirectoryPerms v
    = default EmptyString (Parameters req !! DirectoryPerms)
  ∧ vBasePath v = default EmptyString (Parameters req !! BasePath)
  ∧ vAzName v = default EmptyString (Parameters req !! AzName).
Proof.
  unfold validateParams.
  destruct (String.eqb (Name req) EmptyString) eqn:Hname; [done|].
  apply String.eqb_neq in Hname.
  destruct (checkFsId _) as [|fs] eqn:H1; [done|].
  destruct (checkUid _) as [|uid] eqn:H2; [done|].
  destruct (checkGid _ uid) as [|gid] eqn:H3; [done|].
  destruct (checkGidMin _) as [|lo] eqn:H4; [done|].
  destruct (checkGidMax _ lo) as [|hi] eqn:H5; [done|].
  destruct (defaultRange lo hi) as [lo' hi'] eqn:Hr.
  intros [= <-]. simpl.
  split; [done|]. split; [done|]. split; [done|]. split; [done|].
  split; [by exists lo, hi|]. done.
Qed.

(** The range of a request that passes the validation: the default one when
    neither bound is supplied, the two bounds, parsed, positive and in
    order, when both are; one bound without the other does not pass. *)
Lemma validated_range req v :
  validateParams req = inr v →
  match Parameters req !! GidMin, Parameters req !! GidMax with
  | None, None => vGidMin v = DefaultGidMin ∧ vGidMax v = DefaultGidMax
  | Some slo, Some shi =>
      Atoi slo = Some (vGidMin v) ∧ Atoi shi = Some (vGidMax v)
      ∧ 0 < vGidMin v < vGidMax v
  | _, _ => False
  end.
Proof.
  intros (_ & _ & _ & _ & (lo & hi & Hlo & Hhi & Hr) & _)%validateParams_sound.
  apply checkGidMin_inr in Hlo as [[-> ->]|(slo & -> & Halo & Hpos)];
    apply checkGidMax_inr in Hhi as [(-> & ? & ->)|(shi & -> & ? & Hahi & ?)];
    try done; try lia.
  - by injection Hr as <- <-.
  - unfold defaultRange in Hr.
    destruct (lo =? 0) eqn:Hz; [apply Z.eqb_eq in Hz; lia|].
    simpl in Hr. injection Hr as <- <-. repeat split; try done; lia.
Qed.

Ltac ap_paths w a req st v Hv :=
  let evs := fresh "evs" in
  let res := fresh "res" in
  let g := fresh "g" in
  let Hrun := fresh "Hrun" in
  let Hpaths := fresh "Hpaths" in
  destruct (Provision_paths w a req st v Hv)
    as (evs & res & g & Hrun & Hpaths);
  cbv zeta in Hpaths; rewrite Hrun; simpl; rewrite newEvents_app;
  destruct Hpaths
    as [(Hrole & -> & -> & ? & ->)
       |(pre & Hpre
         & [(? & ? & -> & -> & ->)
           |[(? & ? & Hneed & Hn & -> & -> & ->)
            |(acq & ? & ? & ? & Hacq
              & [(? & ? & -> & -> & ->)
                |(ap & post & ctx & -> & -> & -> & Hpost)])]])].

(** X8. A request is answered [InvalidArgument], and nothing is called nor
    acquired, when its name is empty, when its filesystem id is missing or
    blank, when its uid does not parse or is negative, when the lower bound
    of its range does not parse or is not positive, when one bound of the
    range comes without the other, or when the upper bound does not parse or
    does not exceed the lower one. *)
Theorem Provision_rejects_malformed_request (w : World)
    (a : AccessPointProvisioner) (req : CreateVolumeRequest) (st : State) :
  Name req = EmptyString
  ∨ Parameters req !! FsId = None
  ∨ (∃ s, Parameters req !! FsId = Some s ∧ isBlank s = true)
  ∨ (∃ s, Parameters req !! Uid = Some s ∧ ∀ u, Atoi s = Some u → u < 0)
  ∨ (∃ s, Parameters req !! GidMin = Some s ∧ ∀ n, Atoi s = Some n → n ≤ 0)
  ∨ (Parameters req !! GidMin = None ∧ is_Some (Parameters req !! GidMax))
  ∨ (is_Some (Parameters req !! GidMin) ∧ Parameters req !! GidMax = None)
  ∨ (∃ slo shi,
       Parameters req !! GidMin = Some slo
       ∧ Parameters req !! GidMax = Some shi
       ∧ ∀ lo hi, Atoi slo = Some lo → Atoi shi = Some hi → hi ≤ lo) →
  ∃ fmt, Provision w a req st = (inl (mkStatus InvalidArgument fmt), st).
Proof.
  intros Hbad.
  destruct (validateParams req) as [e|v] eqn:Hv.
  { pose proof (validateParams_inl req e Hv) as Hc. destruct e as [c fmt].
    simpl in Hc. subst c. exists fmt. by apply Provision_invalid. }
  exfalso.
  pose proof (validated_range req v Hv) as Hrange.
  apply validateParams_sound in Hv
    as (Hname & Hfs%checkFsId_inr & Hu%checkUid_inr & _).
  destruct Hfs as [Hfs Hblank].
  destruct Hbad as [?|[?|[(s & ? & ?)|[(s & Hs & Hneg)|[(s & Hs & Hneg)
                   |[[Hlo [shi Hhi]]|[[[slo Hlo] Hhi]
                   |(slo & shi & Hlo & Hhi & Hord)]]]]]]].
  - done.
  - congruence.
  - congruence.
  - destruct Hu as [[? _]|(s' & Hs' & Ha & Hpos)]; [congruence|].
    rewrite Hs in Hs'. injection Hs' as <-. specialize (Hneg _ Ha). lia.
  - rewrite Hs in Hrange. destruct (Parameters req !! GidMax); [|done].
    destruct Hrange as (Ha & _ & ?). specialize (Hneg _ Ha). lia.
  - by rewrite Hlo, Hhi in Hrange.
  - by rewrite Hlo, Hhi in Hrange.
  - rewrite Hlo, Hhi in Hrange. destruct Hrange as (Ha & Hb & ?).
    specialize (Hord _ _ Ha Hb). lia.
Qed.

Lemma Provision_rejects_malformed_request_witness :
  ∃ fmt,
    Provision Mocks.world Mocks.apOk
      (Mocks.request "vol"
         [ ("fileSystemId", "fs-1"); ("gidRangeEnd", "2000") ])
      Mocks.st0
    = (inl (mkStatus InvalidArgument fmt), Mocks.st0).
Proof.
  apply Provision_rejects_malformed_request.
  do 5 right. left. split; [by vm_compute|]. eexists. by vm_compute.
Defined.

(** X9. Whenever [Provision] asks the allocator for an identity, it asks
    for the filesystem of the request, over the range of the request when
    both bounds are supplied (then positive and in order), over the default
    range when neither is. *)
Theorem acquisition_uses_request_range (w : World)
    (a : AccessPointProvisioner) (req : CreateVolumeRequest) (st : State)
    (fs : string) (lo hi : Z) (r : Status + Z) :
  In (EvGetNextGid fs lo hi r) (newEvents st (Provision w a req st).2) →
  Parameters req !! FsId = Some fs
  ∧ match Parameters req !! GidMin, Parameters req !! GidMax with
    | None, None => lo = DefaultGidMin ∧ hi = DefaultGidMax
    | Some slo, Some shi =>
        Atoi slo = Some lo ∧ Atoi shi = Some hi ∧ 0 < lo < hi
    | _, _ => False
    end.
Proof.
  destruct (validateParams req) as [e|v] eqn:Hv.
  { rewrite (Provision_invalid _ _ _ _ _ Hv). simpl.
    destruct st; rewrite newEvents_same. done. }
  pose proof (validated_range req v Hv) as Hrange.
  pose proof (validateParams_sound req v Hv)
    as (_ & [Hfs _]%checkFsId_inr & _).
  ap_paths w a req st v Hv; intros Hin; split_all; by split.
Qed.

Lemma acquisition_uses_request_range_witness :
  Parameters Mocks.reqNoIdentity !! FsId = Some "fs-1"
  ∧ match Parameters Mocks.reqNoIdentity !! GidMin,
          Parameters Mocks.reqNoIdentity !! GidMax with
    | None, None => 1000 = DefaultGidMin ∧ 2000 = DefaultGidMax
    | Some slo, Some shi =>
        Atoi slo = Some 1000 ∧ Atoi shi = Some 2000 ∧ 0 < 1000 < 2000
    | _, _ => False
    end.
Proof.
  apply (acquisition_uses_request_range Mocks.world Mocks.apOk
           Mocks.reqNoIdentity Mocks.st0 "fs-1" 1000 2000 (inr 1000)).
  vm_compute. right. left. reflexivity.
Defined.

(** X10. When the filesystem cannot be described, [Provision] stops there:
    the description is its last call, after at most the assumption of the
    role, no identity is acquired, and the error is [Unauthenticated] for an
    access denial, [InvalidArgument] for a filesystem that is not found and
    [Internal] otherwise. *)
Theorem Provision_stops_on_unknown_filesystem (w : World)
    (a : AccessPointProvisioner) (req : CreateVolumeRequest) (st : State)
    (fs : string) (ce : CloudError) :
  let run := Provision w a req st in
  In (EvDescribeFileSystem fs (Some ce)) (newEvents st run.2) →
  (∃ pre,
     newEvents st run.2 = pre ++ [EvDescribeFileSystem fs (Some ce)]
     ∧ ∀ ev, In ev pre → ∃ role, ev = EvNewCloudWithRole role true)
  ∧ gids run.2 = gids st
  ∧ ∃ fmt,
      run.1 = inl (mkStatus
                     (match ce with
                      | ErrAccessDenied => Unauthenticated
                      | ErrNotFound => InvalidArgument
                      | _ => Internal
                      end) fmt).
Proof.
  intros run. subst run.
  destruct (validateParams req) as [e|v] eqn:Hv.
  { rewrite (Provision_invalid _ _ _ _ _ Hv). simpl.
    destruct st; rewrite newEvents_same. done. }
  ap_paths w a req st v Hv; intros Hin; split_all.
  all: split; [|split; [done|by eexists]].
  - exists []. split; [done|]. intros ev [].
  - eexists [_]. split; [done|]. intros ev Hev. split_all. by eexists.
Qed.

Lemma Provision_stops_on_unknown_filesystem_witness :
  let run := Provision Mocks.world MoreMocks.apWithoutFs Mocks.reqNoIdentity
               Mocks.st0 in
  (∃ pre,
     newEvents Mocks.st0 run.2
     = pre ++ [EvDescribeFileSystem "fs-1" (Some ErrNotFound)]
     ∧ ∀ ev, In ev pre → ∃ role, ev = EvNewCloudWithRole role true)
  ∧ gids run.2 = gids Mocks.st0
  ∧ ∃ fmt, run.1 = inl (mkStatus InvalidArgument fmt).
Proof.
  apply (Provision_stops_on_unknown_filesystem Mocks.world
           MoreMocks.apWithoutFs Mocks.reqNoIdentity Mocks.st0 "fs-1"
           ErrNotFound).
  vm_compute. left. reflexivity.
Defined.

(** X11. When the allocator has no identity left, [Provision] returns the
    error of the allocator as it is and never calls the remote creation. *)
Theorem Provision_surfaces_exhaustion (w : World)
    (a : AccessPointProvisioner) (req : CreateVolumeRequest) (st : State)
    (fs : string) (lo hi : Z) (e : Status) :
  let run := Provision w a req st in
  In (EvGetNextGid fs lo hi (inl e)) (newEvents st run.2) →
  run.1 = inl e
  ∧ ∀ ev, In ev (newEvents st run.2) →
      ∀ n o r t g, ev ≠ EvCreateAccessPoint n o r ∧ ev ≠ EvReleaseGid t g.
Proof.
  intros run. subst run.
  destruct (validateParams req) as [e'|v] eqn:Hv.
  { rewrite (Provision_invalid _ _ _ _ _ Hv). simpl.
    destruct st; rewrite newEvents_same. done. }
  ap_paths w a req st v Hv; intros Hin; split_all.
  all: split; [done|]; intros ev Hev n o r t g'; split_all; by split.
Qed.

Lemma Provision_surfaces_exhaustion_witness :
  let run := Provision Mocks.world Mocks.apOk MoreMocks.reqSmallRange
               MoreMocks.stFull in
  run.1 = inl (mkStatus RangeExhausted "no free id in the range")
  ∧ ∀ ev, In ev (newEvents MoreMocks.stFull run.2) →
      ∀ n o r t g, ev ≠ EvCreateAccessPoint n o r ∧ ev ≠ EvReleaseGid t g.
Proof.
  apply (Provision_surfaces_exhaustion Mocks.world Mocks.apOk
           MoreMocks.reqSmallRange MoreMocks.stFull "fs-1" 1000 1001).
  vm_compute. right. left. reflexivity.
Defined.

(** X12. When [Provision] succeeds, the remote creation was called once
    with the name of the request and answered with an access point; the
    volume returned has the capacity of the request and the identifier
    [fs + "::" + id], for the filesystem [fs] of the request and the
    identifier [id] of that access point; and nothing was released. *)
Theorem Provision_success_volume (w : World) (a : AccessPointProvisioner)
    (req : CreateVolumeRequest) (st : State) (vol : Volume) :
  let run := Provision w a req st in
  run.1 = inr vol →
  ∃ pre opts ap post,
    newEvents st run.2
    = pre ++ EvCreateAccessPoint (Name req) opts (inr ap) :: post
    ∧ Parameters req !! FsId = Some (FileSystemId opts)
    ∧ VolumeId vol = FileSystemId opts +:+ "::" +:+ AccessPointId ap
    ∧ CapacityBytes vol = RequiredBytes req
    ∧ ∀ ev, In ev (pre ++ post) →
        ∀ n o r t g, ev ≠ EvCreateAccessPoint n o r ∧ ev ≠ EvReleaseGid t g.
Proof.
  intros run. subst run.
  destruct (validateParams req) as [e'|v] eqn:Hv.
  { by rewrite (Provision_invalid _ _ _ _ _ Hv). }
  pose proof (validateParams_sound req v Hv)
    as (_ & [Hfs _]%checkFsId_inr & _).
  ap_paths w a req st v Hv; intros Hres; try discriminate Hres.
  injection Hres as <-. simpl.
  eexists (pre ++ EvDescribeFileSystem (vFsId v) None :: acq), _, ap, post.
  split; [by rewrite <- app_assoc|].
  split; [done|]. split; [done|]. split; [done|].
  intros ev Hev n o r t g'. split_all; by split.
Qed.

Lemma Provision_success_volume_witness :
  let run := Provision Mocks.world Mocks.apOk Mocks.reqNoIdentity Mocks.st0 in
  ∃ pre opts ap post,
    newEvents Mocks.st0 run.2
    = pre ++ EvCreateAccessPoint (Name Mocks.reqNoIdentity) opts (inr ap)
          :: post
    ∧ Parameters Mocks.reqNoIdentity !! FsId = Some (FileSystemId opts)
    ∧ VolumeId (Build_Volume 5368709120 "fs-1::fsap-9" ∅)
      = FileSystemId opts +:+ "::" +:+ AccessPointId ap
    ∧ CapacityBytes (Build_Volume 5368709120 "fs-1::fsap-9" ∅)
      = RequiredBytes Mocks.reqNoIdentity
    ∧ ∀ ev, In ev (pre ++ post) →
        ∀ n o r t g, ev ≠ EvCreateAccessPoint n o r ∧ ev ≠ EvReleaseGid t g.
Proof.
  apply (Provision_success_volume Mocks.world Mocks.apOk Mocks.reqNoIdentity
           Mocks.st0 (Build_Volume 5368709120 "fs-1::fsap-9" ∅)).
  by vm_compute.
Defined.

(** X13. Whatever is sent to the remote creation is built from the request:
    the name, the filesystem id, the capacity, the directory permissions as
    they are written, the path [basePath + "/" + name]; the tags are those of
    the provisioner, with the default tag added unless the provisioner has a
    tag on that key; and a uid that is supplied is sent as it parses. *)
Theorem remote_creation_options (w : World) (a : AccessPointProvisioner)
    (req : CreateVolumeRequest) (st : State) (n : string)
    (o : AccessPointOptions) (r : CloudError + AccessPoint) :
  In (EvCreateAccessPoint n o r) (newEvents st (Provision w a req st).2) →
  n = Name req
  ∧ Parameters req !! FsId = Some (FileSystemId o)
  ∧ CapacityGiB o = RequiredBytes req
  ∧ OptDirectoryPerms o
    = default EmptyString (Parameters req !! DirectoryPerms)
  ∧ DirectoryPath o
    = default EmptyString (Parameters req !! BasePath) +:+ "/" +:+ Name req
  ∧ Tags o !! DefaultTagKey
    = Some (default DefaultTagValue (tags a !! DefaultTagKey))
  ∧ (∀ k, k ≠ DefaultTagKey → Tags o !! k = tags a !! k)
  ∧ (∀ s, Parameters req !! Uid = Some s → Atoi s = Some (OptUid o)).
Proof.
  destruct (validateParams req) as [e'|v] eqn:Hv.
  { rewrite (Provision_invalid _ _ _ _ _ Hv). simpl.
    destruct st; rewrite newEvents_same. done. }
  pose proof (validateParams_sound req v Hv)
    as (_ & [Hfs _]%checkFsId_inr & Hu%checkUid_inr & _ & _ & Hp & Hb & _).
  assert (∀ uid gid,
            (uid = vUid v ∨ vUid v = -1) →
            Parameters req !! FsId
              = Some (FileSystemId (optionsOf a req v uid gid))
            ∧ CapacityGiB (optionsOf a req v uid gid) = RequiredBytes req
            ∧ OptDirectoryPerms (optionsOf a req v uid gid)
              = default EmptyString (Parameters req !! DirectoryPerms)
            ∧ DirectoryPath (optionsOf a req v uid gid)
              = default EmptyString (Parameters req !! BasePath)
                +:+ "/" +:+ Name req
            ∧ Tags (optionsOf a req v uid gid) !! DefaultTagKey
              = Some (default DefaultTagValue (tags a !! DefaultTagKey))
            ∧ (∀ k, k ≠ DefaultTagKey →
                 Tags (optionsOf a req v uid gid) !! k = tags a !! k)
            ∧ (∀ s, Parameters req !! Uid = Some s →
                 Atoi s = Some (OptUid (optionsOf a req v uid gid))))
    as Hopts.
  { intros uid gid Huid. unfold optionsOf. simpl.
    rewrite <- Hp, <- Hb.
    split; [done|]. split; [done|]. split; [done|]. split; [done|].
    split; [|split].
    - rewrite lookup_union. destruct (tags a !! DefaultTagKey); simpl;
        by rewrite lookup_singleton_eq.
    - intros k Hk. rewrite lookup_union, lookup_singleton_ne by done.
      by destruct (tags a !! k).
    - intros s Hs.
      destruct Hu as [[? _]|(s' & Hs' & Ha & Hpos)]; [congruence|].
      rewrite Hs in Hs'. injection Hs' as <-.
      destruct Huid as [->|?]; [done|lia]. }
  ap_paths w a req st v Hv; intros Hin; split_all;
    (split; [done|]); apply Hopts; try (by left);
    match goal with
    | |- context [vUid v =? -1] =>
        destruct (vUid v =? -1) eqn:Hz;
        [right; by apply Z.eqb_eq|by left]
    end.
Qed.

Lemma remote_creation_options_witness :
  ∃ o,
    "vol" = Name Mocks.reqNegativeGid
    ∧ Parameters Mocks.reqNegativeGid !! FsId = Some (FileSystemId o)
    ∧ CapacityGiB o = RequiredBytes Mocks.reqNegativeGid
    ∧ OptDirectoryPerms o
      = default EmptyString (Parameters Mocks.reqNegativeGid !! DirectoryPerms)
    ∧ DirectoryPath o
      = default EmptyString (Parameters Mocks.reqNegativeGid !! BasePath)
        +:+ "/" +:+ Name Mocks.reqNegativeGid
    ∧ Tags o !! DefaultTagKey
      = Some (default DefaultTagValue
                (tags MoreMocks.apTagged !! DefaultTagKey))
    ∧ (∀ k, k ≠ DefaultTagKey → Tags o !! k = tags MoreMocks.apTagged !! k)
    ∧ (∀ s, Parameters Mocks.reqNegativeGid !! Uid = Some s →
         Atoi s = Some (OptUid o)).
Proof.
  eexists.
  eapply (remote_creation_options Mocks.world MoreMocks.apTagged
           Mocks.reqNegativeGid Mocks.st0 "vol" _
           (inr {| AccessPointId := "fsap-9" |})).
  vm_compute. right. left. reflexivity.
Defined.

(** X14. Without a role in the secrets (none, or an empty one), [Provision]
    assumes no role and resolves no mount target, and the volume it returns
    on success has an empty context. *)
Theorem Provision_without_role (w : World) (a : AccessPointProvisioner)
    (req : CreateVolumeRequest) (st : State) :
  default EmptyString (Secrets req !! RoleArn) = EmptyString →
  let run := Provision w a req st in
  (∀ ev, In ev (newEvents st run.2) →
     ∀ role ok fs az r,
       ev ≠ EvNewCloudWithRole role ok ∧ ev ≠ EvDescribeMountTargets fs az r)
  ∧ ∀ vol, run.1 = inr vol → VolumeContext vol = ∅.
Proof.
  intros Hnone run. subst run.
  destruct (validateParams req) as [e'|v] eqn:Hv.
  { rewrite (Provision_invalid _ _ _ _ _ Hv). simpl.
    destruct st; rewrite newEvents_same. split; [intros ev []|done]. }
  ap_paths w a req st v Hv; split_all; try congruence.
  all: split;
    [intros ev Hev role ok fs az r; split_all; by split
    |intros vol Hvol; try discriminate Hvol].
  all: by injection Hvol as <-.
Qed.

Lemma Provision_without_role_witness :
  let run := Provision Mocks.world Mocks.apOk Mocks.reqNoIdentity Mocks.st0 in
  (∀ ev, In ev (newEvents Mocks.st0 run.2) →
     ∀ role ok fs az r,
       ev ≠ EvNewCloudWithRole role ok ∧ ev ≠ EvDescribeMountTargets fs az r)
  ∧ ∀ vol, run.1 = inr vol → VolumeContext vol = ∅.
Proof.
  apply (Provision_without_role Mocks.world Mocks.apOk Mocks.reqNoIdentity
           Mocks.st0).
  reflexivity.
Defined.

(** X15. The resolution of a mount target is the last call of a run that
    succeeds, made for the filesystem and the zone of the request, and its
    failure does not fail the run: the volume is returned with an empty
    context, or with the address under the mount-target key when the
    resolution succeeded. *)
Theorem mount_target_is_best_effort (w : World) (a : AccessPointProvisioner)
    (req : CreateVolumeRequest) (st : State) (fs az : string)
    (r : CloudError + MountTarget) :
  let run := Provision w a req st in
  In (EvDescribeMountTargets fs az r) (newEvents st run.2) →
  (∃ pre, newEvents st run.2 = pre ++ [EvDescribeMountTargets fs az r])
  ∧ Parameters req !! FsId = Some fs
  ∧ az = default EmptyString (Parameters req !! AzName)
  ∧ ∃ vol,
      run.1 = inr vol
      ∧ VolumeContext vol
        = match r with
          | inl _ => ∅
          | inr mt => {[ MountTargetIp := IPAddress mt ]}
          end.
Proof.
  intros run. subst run.
  destruct (validateParams req) as [e'|v] eqn:Hv.
  { rewrite (Provision_invalid _ _ _ _ _ Hv). simpl.
    destruct st; rewrite newEvents_same. done. }
  pose proof (validateParams_sound req v Hv)
    as (_ & [Hfs _]%checkFsId_inr & _ & _ & _ & _ & _ & Haz).
  ap_paths w a req st v Hv; intros Hin; split_all; try congruence.
  all: split; [|split; [done|split; [done|by eexists]]].
  all: match goal with
       | |- ∃ pre, ?l = _ => by exists (removelast l)
       end.
Qed.

Lemma mount_target_is_best_effort_witness :
  let run := Provision MoreMocks.worldWithRole Mocks.apOk MoreMocks.reqWithRole
               Mocks.st0 in
  (∃ pre,
     newEvents Mocks.st0 run.2
     = pre ++ [EvDescribeMountTargets "fs-1" "us-east-1a" (inl ErrNotFound)])
  ∧ Parameters MoreMocks.reqWithRole !! FsId = Some "fs-1"
  ∧ "us-east-1a" = default EmptyString (Parameters MoreMocks.reqWithRole !! AzName)
  ∧ ∃ vol, run.1 = inr vol ∧ VolumeContext vol = ∅.
Proof.
  apply (mount_target_is_best_effort MoreMocks.worldWithRole Mocks.apOk
           MoreMocks.reqWithRole Mocks.st0 "fs-1" "us-east-1a"
           (inl ErrNotFound)).
  vm_compute. do 4 right. left. reflexivity.
Defined.

(** X16. When the role of the secrets cannot be assumed, that attempt is
    the only call of [Provision], nothing is acquired, and the error is
    [Unauthenticated]. *)
Theorem Provision_stops_on_role_failure (w : World)
    (a : AccessPointProvisioner) (req : CreateVolumeRequest) (st : State)
    (role : string) :
  let run := Provision w a req st in
  In (EvNewCloudWithRole role false) (newEvents st run.2) →
  newEvents st run.2 = [EvNewCloudWithRole role false]
  ∧ Secrets req !! RoleArn = Some role
  ∧ gids run.2 = gids st
  ∧ ∃ fmt, run.1 = inl (mkStatus Unauthenticated fmt).
Proof.
  intros run. subst run.
  destruct (validateParams req) as [e'|v] eqn:Hv.
  { rewrite (Provision_invalid _ _ _ _ _ Hv). simpl.
    destruct st; rewrite newEvents_same. done. }
  ap_paths w a req st v Hv; intros Hin; split_all.
  split; [done|]. split; [|split; [done|by eexists]].
  destruct (Secrets req !! RoleArn); [done|]. by simpl in Hrole.
Qed.

Lemma Provision_stops_on_role_failure_witness :
  let run := Provision Mocks.world Mocks.apOk MoreMocks.reqWithRole
               Mocks.st0 in
  newEvents Mocks.st0 run.2
  = [EvNewCloudWithRole "arn:aws:iam::1:role/x" false]
  ∧ Secrets MoreMocks.reqWithRole !! RoleArn = Some "arn:aws:iam::1:role/x"
  ∧ gids run.2 = gids Mocks.st0
  ∧ ∃ fmt, run.1 = inl (mkStatus Unauthenticated fmt).
Proof.
  apply (Provision_stops_on_role_failure Mocks.world Mocks.apOk
           MoreMocks.reqWithRole Mocks.st0 "arn:aws:iam::1:role/x").
  vm_compute. left. reflexivity.
Defined.

(** X17. [Provision] releases an identity only as its last call, right
    after a remote creation that failed, for the filesystem and with the gid
    that were sent to that creation; the error it then returns is
    [Unauthenticated] for an access denial, [AlreadyExists] for an access
    point that exists and [Internal] otherwise. *)
Theorem release_only_after_failed_creation (w : World)
    (a : AccessPointProvisioner) (req : CreateVolumeRequest) (st : State)
    (fs : string) (gid : Z) :
  let run := Provision w a req st in
  In (EvReleaseGid fs gid) (newEvents st run.2) →
  ∃ pre o ce,
    newEvents st run.2
    = pre ++ [EvCreateAccessPoint (Name req) o (inl ce); EvReleaseGid fs gid]
    ∧ fs = FileSystemId o ∧ gid = OptGid o
    ∧ (∀ ev, In ev pre → ∀ t g, ev ≠ EvReleaseGid t g)
    ∧ ∃ fmt,
        run.1 = inl (mkStatus
                       (match ce with
                        | ErrAccessDenied => Unauthenticated
                        | ErrAlreadyExists => AlreadyExists
                        | _ => Internal
                        end) fmt).
Proof.
  intros run. subst run.
  destruct (validateParams req) as [e'|v] eqn:Hv.
  { rewrite (Provision_invalid _ _ _ _ _ Hv). simpl.
    destruct st; rewrite newEvents_same. done. }
  ap_paths w a req st v Hv; intros Hin; split_all.
  all: simpl;
    first [ eexists [_], _, _; split; [reflexivity|]
          | eexists [_; _], _, _; split; [reflexivity|]
          | eexists [_; _; _], _, _; split; [reflexivity|] ].
  all: split; [done|]; split; [done|]; split; [|by eexists].
  all: intros ev Hev t g'; split_all; done.
Qed.

Lemma release_only_after_failed_creation_witness :
  let run := Provision Mocks.world Mocks.apFailing Mocks.reqNegativeGid
               Mocks.st0 in
  ∃ pre o ce,
    newEvents Mocks.st0 run.2
    = pre ++ [EvCreateAccessPoint (Name Mocks.reqNegativeGid) o (inl ce);
              EvReleaseGid "fs-1" (-5)]
    ∧ "fs-1" = FileSystemId o ∧ -5 = OptGid o
    ∧ (∀ ev, In ev pre → ∀ t g, ev ≠ EvReleaseGid t g)
    ∧ ∃ fmt,
        run.1 = inl (mkStatus
                       (match ce with
                        | ErrAccessDenied => Unauthenticated
                        | ErrAlreadyExists => AlreadyExists
                        | _ => Internal
                        end) fmt).
Proof.
  apply (release_only_after_failed_creation Mocks.world Mocks.apFailing
           Mocks.reqNegativeGid Mocks.st0 "fs-1" (-5)).
  vm_compute. do 2 right. left. reflexivity.
Defined.

End ProvisionMore.

(** ** More on the directory provisioner *)

Section DirectoryMore.

Import DirectoryProvisioner.

Ltac pick_path :=
  lazymatch goal with
  | |- _ ∨ _ => first [ solve [left; pick_path] | solve [right; pick_path] ]
  | |- _ ∧ _ => split; pick_path
  | |- ∃ _, _ => eexists; pick_path
  | |- _ => first [ reflexivity | eassumption ]
  end.

(** The runs of [Provision], by the first call that fails. *)
Lemma DirProvision_paths w d req uid gid st :
  ∃ evs res,
    Provision w d req uid gid st = (res, mkState (gids st) (trace st ++ evs))
    ∧ ((evs = []
        ∧ (Parameters req !! FsId = None
           ∨ ∃ s, Parameters req !! FsId = Some s ∧ isBlank s = true)
        ∧ ∃ fmt, res = inl (mkStatus InvalidArgument fmt))
       ∨ ∃ fs,
           Parameters req !! FsId = Some fs ∧ isBlank fs = false
           ∧ ((∃ e, evs = [EvGetCloud (Some e)] ∧ res = inl e)
              ∨ (∃ role e,
                   evs = [EvGetCloud None; EvGetMountOptions fs role (inl e)]
                   ∧ res = inl e)
              ∨ ∃ role opts id r1 tail,
                  evs = EvGetCloud None
                        :: EvGetMountOptions fs role (inr opts)
                        :: EvUuidNew id
                        :: EvMakeDir (TempMountPathPrefix +:+ "/" +:+ id) r1
                        :: tail
                  ∧ let target := TempMountPathPrefix +:+ "/" +:+ id in
                    let path := default EmptyString (Parameters req !! BasePath)
                                +:+ "/" +:+ Name req in
                    let dir := EvMkDirAllWithPerms (pathJoin w target path)
                                 (permsOf (Parameters req)) uid gid in
                    let mount := EvMount fs target "efs" opts in
                    ((∃ e, r1 = Some e ∧ tail = []
                        ∧ res = inl (mkStatus Internal
                                       "Could not create dir %q: %v"))
                     ∨ r1 = None
                       ∧ ((∃ e, tail = [mount (Some e)]
                             ∧ res = inl (mkStatus Internal
                                            "Could not mount %q at %q: %v"))
                          ∨ (∃ e, tail = [mount None; dir (Some e)]
                               ∧ res = inl (mkStatus Internal
                                         "Could not provision directory: %v"))
                          ∨ (∃ e, tail = [mount None; dir None;
                                          EvUnmount target (Some e)]
                               ∧ res = inl (mkStatus Internal
                                              "Could not unmount %q: %v"))
                          ∨ (∃ e, tail = [mount None; dir None;
                                          EvUnmount target None;
                                          EvRemoveAll target (Some e)]
                               ∧ res = inl (mkStatus Internal
                                              "Could not delete %q: %v"))
                          ∨ (tail = [mount None; dir None;
                                     EvUnmount target None;
                                     EvRemoveAll target None]
                             ∧ res = inr {| CapacityBytes := RequiredBytes req;
                                            VolumeId :=
                                              encodeDirectory fs path;
                                            VolumeContext := ∅ |}))))).
Proof.
  destruct st as [g0 t0]. simpl.
  unfold_dir; repeat (case_match; simplify_eq/=);
    rewrite <- ?app_assoc; simpl.
  all: try (eexists [], _; rewrite app_nil_r; split; [reflexivity|];
            left; split; [done|]; split; [|by eexists]; eauto; fail).
  all: eexists _, _; (split; [reflexivity|]); right; eexists;
    (split; [reflexivity|]); (split; [eassumption|]).
  all: cbv zeta; pick_path.
Qed.

(** The runs of [Delete]: once the mount-point exists, the two deferred
    calls close every run, and their outcomes decide the error. *)
Lemma DirDelete_paths w d req st :
  ∃ evs res,
    Delete w d req st = (res, mkState (gids st) (trace st ++ evs))
    ∧ ((deleteProvisionedDir d = false ∧ evs = [] ∧ res = inr tt)
       ∨ deleteProvisionedDir d = true
         ∧ ∃ fs subpath ap,
             parseVolumeId (DelVolumeId req) = (fs, subpath, ap)
             ∧ ((∃ e, evs = [EvGetCloud (Some e)] ∧ res = inl e)
                ∨ (∃ role e,
                     evs = [EvGetCloud None; EvGetMountOptions fs role (inl e)]
                     ∧ res = inl e)
                ∨ ∃ role opts id r0 tail,
                    evs = EvGetCloud None
                          :: EvGetMountOptions fs role (inr opts)
                          :: EvUuidNew id
                          :: EvMakeDir (TempMountPathPrefix +:+ "/" +:+ id) r0
                          :: tail
                    ∧ let target := TempMountPathPrefix +:+ "/" +:+ id in
                      let mount := EvMount fs target "efs" opts in
                      ((∃ e, r0 = Some e ∧ tail = []
                          ∧ res = inl (mkStatus Internal
                                         "Could not create dir %q: %v"))
                       ∨ r0 = None
                         ∧ ∃ inner r1 r2,
                             ((∃ e r,
                                 tail = [mount (Some e); EvRemove target r;
                                         EvRemoveAll target r1;
                                         EvUnmount target r2]
                                 ∧ inner = inl (mkStatus Internal
                                              "Could not mount %q at %q: %v"))
                              ∨ (∃ e,
                                   tail = [mount None;
                                           EvRemoveAll (target +:+ subpath)
                                             (Some e);
                                           EvRemoveAll target r1;
                                           EvUnmount target r2]
                                   ∧ inner = inl (mkStatus Internal
                                          "Could not delete directory %q: %v"))
                              ∨ (tail = [mount None;
                                         EvRemoveAll (target +:+ subpath) None;
                                         EvRemoveAll target r1;
                                         EvUnmount target r2]
                                 ∧ inner = inr tt))
                             ∧ res = match r2, r1 with
                                     | Some _, _ =>
                                         inl (mkStatus Internal
                                                "Could not unmount %q: %v")
                                     | None, Some _ =>
                                         inl (mkStatus Internal
                                                "Could not delete %q: %v")
                                     | None, None => inner
                                     end))).
Proof.
  destruct st as [g0 t0]. simpl.
  unfold Delete. destruct (deleteProvisionedDir d) eqn:Hd.
  2: { exists [], (inr tt). rewrite app_nil_r. simpl.
       split; [reflexivity|]. left. by repeat split. }
  unfold_dir; repeat (case_match; simplify_eq/=);
    rewrite <- ?app_assoc; simpl.
  all: eexists _, _; (split; [reflexivity|]); right; (split; [done|]).
  all: cbv zeta; pick_path.
Qed.

Ltac dir_paths H :=
  let evs := fresh "evs" in
  let res := fresh "res" in
  let Hrun := fresh "Hrun" in
  let Hp := fresh "Hp" in
  destruct H as (evs & res & Hrun & Hp);
  cbv zeta in Hp; rewrite Hrun; simpl; rewrite newEvents_app.

(** X18. [Provision] makes no call exactly when the filesystem id of the
    request is missing or blank; the request is then refused with
    [InvalidArgument] and the state is left as it was.  The name of the
    volume is not looked at. *)
Theorem Directory_Provision_without_filesystem_id (w : World)
    (d : DirectoryProvisioner) (req : CreateVolumeRequest) (uid gid : Z)
    (st : State) :
  let run := Provision w d req uid gid st in
  (newEvents st run.2 = []
   ↔ Parameters req !! FsId = None
     ∨ ∃ s, Parameters req !! FsId = Some s ∧ isBlank s = true)
  ∧ (newEvents st run.2 = []
     → run.2 = st ∧ ∃ fmt, run.1 = inl (mkStatus InvalidArgument fmt)).
Proof.
  intros run. subst run.
  dir_paths (DirProvision_paths w d req uid gid st).
  destruct st as [g0 t0]. simpl in *.
  split_all; try subst evs; try subst res.
  all: split; [split|]; try discriminate; try done; simpl.
  all: try (intros _; rewrite app_nil_r; split; [done|by eexists]).
  all: try (intros [?|(? & ? & ?)]; congruence).
  all: try (intros _; by left).
  all: try (intros _; right; by eexists).
Qed.

(** X19. A successful [Provision] has made exactly eight calls, each of
    which succeeded: the credentials, the mount options, a fresh name, the
    temporary mount-point, the mount of the filesystem on it, the creation
    of the directory [basePath/name] under the mount-point with the
    permissions and the owner asked for, the unmount, and the removal of the
    mount-point.  The volume id is the filesystem id, a colon and
    [basePath/name]; the capacity is the one of the request and the volume
    context is empty.  The allocator is not touched. *)
Theorem Directory_Provision_success (w : World) (d : DirectoryProvisioner)
    (req : CreateVolumeRequest) (uid gid : Z) (st : State) (vol : Volume) :
  let run := Provision w d req uid gid st in
  run.1 = inr vol →
  ∃ fs role opts id,
    let target := TempMountPathPrefix +:+ "/" +:+ id in
    let path := default EmptyString (Parameters req !! BasePath)
                +:+ "/" +:+ Name req in
    Parameters req !! FsId = Some fs
    ∧ newEvents st run.2
      = [ EvGetCloud None;
          EvGetMountOptions fs role (inr opts);
          EvUuidNew id;
          EvMakeDir target None;
          EvMount fs target "efs" opts None;
          EvMkDirAllWithPerms (pathJoin w target path)
            (permsOf (Parameters req)) uid gid None;
          EvUnmount target None;
          EvRemoveAll target None ]
    ∧ vol = {| CapacityBytes := RequiredBytes req;
               VolumeId := fs +:+ ":" +:+ path;
               VolumeContext := ∅ |}
    ∧ gids run.2 = gids st.
Proof.
  intros run. subst run.
  dir_paths (DirProvision_paths w d req uid gid st).
  intros Hres. split_all; simplify_eq/=.
  eexists _, _, _, _. by repeat split.
Qed.

(** The test "Success: Check path created is sensible". *)
Lemma Directory_Provision_success_witness :
  let run := Provision Mocks.world
               (Mocks.dirProvisioner (Mocks.mockMounter None None)
                  FakeOsClient false)
               Mocks.dirRequest 1000 1000 Mocks.st0 in
  ∃ fs role opts id,
    let target := TempMountPathPrefix +:+ "/" +:+ id in
    let path := default EmptyString (Parameters Mocks.dirRequest !! BasePath)
                +:+ "/" +:+ Name Mocks.dirRequest in
    Parameters Mocks.dirRequest !! FsId = Some fs
    ∧ newEvents Mocks.st0 run.2
      = [ EvGetCloud None;
          EvGetMountOptions fs role (inr opts);
          EvUuidNew id;
          EvMakeDir target None;
          EvMount fs target "efs" opts None;
          EvMkDirAllWithPerms (pathJoin Mocks.world target path)
            (permsOf (Parameters Mocks.dirRequest)) 1000 1000 None;
          EvUnmount target None;
          EvRemoveAll target None ]
    ∧ {| CapacityBytes := 5368709120;
         VolumeId := "fs-abcd1234:/dynamic/volumeName";
         VolumeContext := ∅ |}
      = {| CapacityBytes := RequiredBytes Mocks.dirRequest;
           VolumeId := fs +:+ ":" +:+ path;
           VolumeContext := ∅ |}
    ∧ gids run.2 = gids Mocks.st0.
Proof.
  apply (Directory_Provision_success Mocks.world
           (Mocks.dirProvisioner (Mocks.mockMounter None None)
              FakeOsClient false)
           Mocks.dirRequest 1000 1000 Mocks.st0).
  vm_compute. reflexivity.
Defined.

(** X20. [Provision] stops at the first call that fails: a failed call is
    the last call of the run, and the run ends in an error. *)
Theorem Directory_Provision_stops_at_first_failure (w : World)
    (d : DirectoryProvisioner) (req : CreateVolumeRequest) (uid gid : Z)
    (st : State) (pre post : History) (ev : Event) :
  let run := Provision w d req uid gid st in
  newEvents st run.2 = pre ++ ev :: post →
  failed ev = true →
  post = [] ∧ ∃ s, run.1 = inl s.
Proof.
  intros run. subst run.
  dir_paths (DirProvision_paths w d req uid gid st).
  intros Hevs Hfail. split_all; try subst evs; try subst res; peel_prefix.
  all: try discriminate Hfail.
  all: split; [reflexivity|by eexists].
Qed.

(** The test "Fail: Mounter cannot mount into root directory": the failed
    mount is the fifth and last call. *)
Lemma Directory_Provision_stops_at_first_failure_witness :
  let run := Provision Mocks.world
               (Mocks.dirProvisioner
                  (Mocks.mockMounter (Some "mount failed") None)
                  FakeOsClient false)
               Mocks.dirRequest 1000 1000 Mocks.st0 in
  let pre := [ EvGetCloud None;
               EvGetMountOptions "fs-abcd1234" "" (inr [ "tls"; "iam" ]);
               EvUuidNew "uuid-1";
               EvMakeDir "/var/lib/csi/pv/uuid-1" None ] in
  let ev := EvMount "fs-abcd1234" "/var/lib/csi/pv/uuid-1" "efs"
              [ "tls"; "iam" ] (Some "mount failed") in
  newEvents Mocks.st0 run.2 = pre ++ ev :: []
  ∧ failed ev = true
  ∧ @nil Event = [] ∧ ∃ s, run.1 = inl s.
Proof.
  split; [vm_compute; reflexivity|]. split; [reflexivity|].
  apply (Directory_Provision_stops_at_first_failure Mocks.world
           (Mocks.dirProvisioner
              (Mocks.mockMounter (Some "mount failed") None)
              FakeOsClient false)
           Mocks.dirRequest 1000 1000 Mocks.st0
           [ EvGetCloud None;
             EvGetMountOptions "fs-abcd1234" "" (inr [ "tls"; "iam" ]);
             EvUuidNew "uuid-1";
             EvMakeDir "/var/lib/csi/pv/uuid-1" None ]
           []
           (EvMount "fs-abcd1234" "/var/lib/csi/pv/uuid-1" "efs"
              [ "tls"; "iam" ] (Some "mount failed"))).
  - vm_compute. reflexivity.
  - reflexivity.
Defined.





(** *** Delete *)

(** X22. [Delete] returns [nil] in two cases only: the provisioner is not
    set to delete provisioned directories, and then nothing is called; or
    all of its eight calls succeeded: the credentials, the mount options, a
    fresh name, the temporary mount-point, the mount, the removal of the
    directory of the volume under the mount-point, the removal of the
    mount-point and, last, the unmount. *)
Theorem Directory_Delete_succeeds_iff (w : World) (d : DirectoryProvisioner)
    (req : DeleteVolumeRequest) (st : State) :
  let run := Delete w d req st in
  let fs := (parseVolumeId (DelVolumeId req)).1.1 in
  let subpath := (parseVolumeId (DelVolumeId req)).1.2 in
  run.1 = inr tt
  ↔ (deleteProvisionedDir d = false ∧ newEvents st run.2 = [])
    ∨ (deleteProvisionedDir d = true
       ∧ ∃ role opts id,
           let target := TempMountPathPrefix +:+ "/" +:+ id in
           newEvents st run.2
           = [ EvGetCloud None;
               EvGetMountOptions fs role (inr opts);
               EvUuidNew id;
               EvMakeDir target None;
               EvMount fs target "efs" opts None;
               EvRemoveAll (target +:+ subpath) None;
               EvRemoveAll target None;
               EvUnmount target None ]).
Proof.
  intros run fs subpath. subst run fs subpath.
  dir_paths (DirDelete_paths w d req st).
  split_all; simplify_eq/=.
  all: repeat match goal with r : option OpaqueError |- _ => destruct r end.
  all: repeat match goal with H : parseVolumeId _ = _ |- _ => rewrite H end.
  all: simpl; split;
    [ intros Hr; try discriminate Hr
    | intros [[? ?]|(? & ? & ? & ? & ?)]; simplify_eq/=; try congruence ].
  all: try (by left).
  all: right; split; [done|]; by eexists _, _, _.
Qed.

(** X23. Once the temporary mount-point has been created, [Delete] ends
    whatever happens with the removal of the mount-point followed by the
    unmount, in this order. *)
Theorem Directory_Delete_always_cleans_up (w : World)
    (d : DirectoryProvisioner) (req : DeleteVolumeRequest) (st : State)
    (target : string) :
  let run := Delete w d req st in
  In (EvMakeDir target None) (newEvents st run.2) →
  ∃ pre r1 r2,
    newEvents st run.2 = pre ++ [ EvRemoveAll target r1; EvUnmount target r2 ].
Proof.
  intros run. subst run.
  dir_paths (DirDelete_paths w d req st).
  intros Hin. split_all; simplify_eq/=; split_in.
  all: eexists [_; _; _; _; _; _], _, _; reflexivity.
Qed.

(** The test "Fail: Cannot delete contents of provisioned directory". *)
Lemma Directory_Delete_always_cleans_up_witness :
  let run := Delete Mocks.world
               (Mocks.dirProvisioner (Mocks.mockMounter None None)
                  BrokenOsClient true)
               Mocks.delRequest Mocks.st0 in
  ∃ pre r1 r2,
    newEvents Mocks.st0 run.2
    = pre ++ [ EvRemoveAll "/var/lib/csi/pv/uuid-1" r1;
               EvUnmount "/var/lib/csi/pv/uuid-1" r2 ].
Proof.
  apply (Directory_Delete_always_cleans_up Mocks.world
           (Mocks.dirProvisioner (Mocks.mockMounter None None)
              BrokenOsClient true)
           Mocks.delRequest Mocks.st0 "/var/lib/csi/pv/uuid-1").
  vm_compute. do 3 right. left. reflexivity.
Defined.

(** X24. When the mount fails, [Delete] removes the empty mount-point, and
    the two deferred calls still run: the mount-point is removed again and
    an unmount is attempted on it.  The directory of the volume is not
    touched, and the answer is [Internal]. *)
Theorem Directory_Delete_mount_failure (w : World) (d : DirectoryProvisioner)
    (req : DeleteVolumeRequest) (st : State) (fs target ty : string)
    (opts : list string) (err : OpaqueError) :
  let run := Delete w d req st in
  In (EvMount fs target ty opts (Some err)) (newEvents st run.2) →
  (∃ role id r r1 r2,
     target = TempMountPathPrefix +:+ "/" +:+ id
     ∧ newEvents st run.2
       = [ EvGetCloud None;
           EvGetMountOptions fs role (inr opts);
           EvUuidNew id;
           EvMakeDir target None;
           EvMount fs target ty opts (Some err);
           EvRemove target r;
           EvRemoveAll target r1;
           EvUnmount target r2 ])
  ∧ ∃ fmt, run.1 = inl (mkStatus Internal fmt).
Proof.
  intros run. subst run.
  dir_paths (DirDelete_paths w d req st).
  intros Hin. split_all; simplify_eq/=.
  split; [by eexists _, _, _, _, _|].
  repeat match goal with r : option OpaqueError |- _ => destruct r end.
  all: by eexists.
Qed.

(** The test "Fail: Cannot mount to root of filesystem"; the OS client is
    [FakeOsClient]. *)
Lemma Directory_Delete_mount_failure_witness :
  let run := Delete Mocks.world
               (Mocks.dirProvisioner
                  (Mocks.mockMounter (Some "mount failed") None)
                  FakeOsClient true)
               Mocks.delRequest Mocks.st0 in
  (∃ role id r r1 r2,
     "/var/lib/csi/pv/uuid-1" = TempMountPathPrefix +:+ "/" +:+ id
     ∧ newEvents Mocks.st0 run.2
       = [ EvGetCloud None;
           EvGetMountOptions "fs-abcd1234" role (inr [ "tls"; "iam" ]);
           EvUuidNew id;
           EvMakeDir "/var/lib/csi/pv/uuid-1" None;
           EvMount "fs-abcd1234" "/var/lib/csi/pv/uuid-1" "efs"
             [ "tls"; "iam" ] (Some "mount failed");
           EvRemove "/var/lib/csi/pv/uuid-1" r;
           EvRemoveAll "/var/lib/csi/pv/uuid-1" r1;
           EvUnmount "/var/lib/csi/pv/uuid-1" r2 ])
  ∧ ∃ fmt, run.1 = inl (mkStatus Internal fmt).
Proof.
  apply (Directory_Delete_mount_failure Mocks.world
           (Mocks.dirProvisioner
              (Mocks.mockMounter (Some "mount failed") None)
              FakeOsClient true)
           Mocks.delRequest Mocks.st0 "fs-abcd1234" "/var/lib/csi/pv/uuid-1"
           "efs" [ "tls"; "iam" ] "mount failed").
  vm_compute. do 4 right. left. reflexivity.
Defined.

(** X25. The two deferred calls decide the answer of [Delete]: a failed
    unmount is reported whatever happened before it; otherwise a failed
    removal of the mount-point is reported, also in place of an earlier
    error; and when both succeed, [Delete] returns [nil] exactly when no
    earlier call failed. *)
Theorem Directory_Delete_error_precedence (w : World)
    (d : DirectoryProvisioner) (req : DeleteVolumeRequest) (st : State)
    (pre : History) (target : string) (r1 r2 : option OpaqueError) :
  let run := Delete w d req st in
  newEvents st run.2 = pre ++ [ EvRemoveAll target r1; EvUnmount target r2 ] →
  match r2, r1 with
  | Some _, _ => run.1 = inl (mkStatus Internal "Could not unmount %q: %v")
  | None, Some _ => run.1 = inl (mkStatus Internal "Could not delete %q: %v")
  | None, None => run.1 = inr tt ↔ existsb failed pre = false
  end.
Proof.
  intros run. subst run.
  dir_paths (DirDelete_paths w d req st).
  intros Hevs. split_all; simplify_eq/=; peel_prefix.
  all: repeat match goal with r : option OpaqueError |- _ => destruct r end.
  all: simpl; try reflexivity; by split.
Qed.

(** The test "Fail: Cannot delete contents of provisioned directory": the
    removal of the directory of the volume fails, and so does the removal
    of the mount-point, which is the error returned. *)
Lemma Directory_Delete_error_precedence_witness :
  let run := Delete Mocks.world
               (Mocks.dirProvisioner (Mocks.mockMounter None None)
                  BrokenOsClient true)
               Mocks.delRequest Mocks.st0 in
  run.1 = inl (mkStatus Internal "Could not delete %q: %v").
Proof.
  apply (Directory_Delete_error_precedence Mocks.world
           (Mocks.dirProvisioner (Mocks.mockMounter None None)
              BrokenOsClient true)
           Mocks.delRequest Mocks.st0
           [ EvGetCloud None;
             EvGetMountOptions "fs-abcd1234" "" (inr [ "tls"; "iam" ]);
             EvUuidNew "uuid-1";
             EvMakeDir "/var/lib/csi/pv/uuid-1" None;
             EvMount "fs-abcd1234" "/var/lib/csi/pv/uuid-1" "efs"
               [ "tls"; "iam" ] None;
             EvRemoveAll "/var/lib/csi/pv/uuid-1/dynamic/newDir"
               (Some "os.PathError") ]
           "/var/lib/csi/pv/uuid-1" (Some "os.PathError") None).
  vm_compute. reflexivity.
Defined.

End DirectoryMore.

(** ** The deletion of an access point *)

Section AccessPointDeletionFacts.

Import AccessPointDeletion.

Ltac unfold_del :=
  unfold Delete, getCloud, mountOptionsOf, removeRootDir, deleteAccessPoint,
    dcall, dthrow, mbind, mret, D_bind, D_ret, dbind, dret in *;
  simpl in *.

Ltac pick_call_path :=
  lazymatch goal with
  | |- _ ∨ _ =>
      first [ solve [left; pick_call_path] | solve [right; pick_call_path] ]
  | |- _ ∧ _ => split; pick_call_path
  | |- ∃ _, _ => eexists; pick_call_path
  | |- _ => first [ reflexivity | eassumption ]
  end.

(** The runs of [Delete], stage by stage. *)
Lemma AccessPointDelete_paths w a req h :
  let role := default EmptyString (DelSecrets req !! RoleArn) in
  let fs := (parseVolumeId (DelVolumeId req)).1.1 in
  let ap := (parseVolumeId (DelVolumeId req)).2 in
  let target := TempMountPathPrefix +:+ "/" +:+ ap in
  ∃ calls res,
    Delete w a req h = (res, h ++ calls)
    ∧ ((String.eqb role EmptyString = false
        ∧ calls = [CallNewCloudWithRole role false]
        ∧ ∃ fmt, res = inl (mkStatus Unauthenticated fmt))
       ∨ ∃ pre0,
           ((String.eqb role EmptyString = true ∧ pre0 = [])
            ∨ (String.eqb role EmptyString = false
               ∧ pre0 = [CallNewCloudWithRole role true]))
           ∧ ((deleteAccessPointRootDir a = false
               ∧ ∃ r, calls = pre0 ++ [CallDeleteAccessPoint ap r]
                      ∧ res = deleteAnswer r)
              ∨ deleteAccessPointRootDir a = true
                ∧ ((∃ e, calls = pre0 ++ [CallDescribeAccessPoint ap (inl e)]
                         ∧ res = match e with
                                 | ErrAccessDenied =>
                                     inl (mkStatus Unauthenticated
                                            "Access Denied. Please ensure you have the right AWS permissions: %v")
                                 | ErrNotFound => inr tt
                                 | _ =>
                                     inl (mkStatus Internal
                                            "Could not get describe Access Point: %v , error: %v")
                                 end)
                   ∨ ∃ info pre1 opts tail,
                       ((String.eqb role EmptyString = true
                         ∧ pre1 = [] ∧ opts = [ "tls"; "iam" ])
                        ∨ (String.eqb role EmptyString = false
                           ∧ ∃ r, pre1 = [CallDescribeMountTargets fs
                                            EmptyString r]
                                  ∧ opts = match r with
                                           | inr mt =>
                                               [ "tls"; "iam";
                                                 MountTargetIp +:+ "="
                                                 +:+ IPAddress mt ]
                                           | inl _ => [ "tls"; "iam" ]
                                           end))
                       ∧ calls = pre0
                                 ++ CallDescribeAccessPoint ap (inr info)
                                 :: pre1 ++ tail
                       ∧ let mount := CallMount fs target "efs" opts in
                         let rootDir :=
                           CallOsRemoveAll
                             (target +:+ AccessPointRootDir info) in
                         ((∃ e, tail = [CallMakeDir target (Some e)]
                                ∧ res = inl (mkStatus Internal
                                          "Could not create dir %q: %v"))
                          ∨ (∃ e r, tail = [CallMakeDir target None;
                                            mount (Some e);
                                            CallOsRemove target r]
                                    ∧ res = inl (mkStatus Internal
                                              "Could not mount %q at %q: %v"))
                          ∨ (∃ e, tail = [CallMakeDir target None;
                                          mount None; rootDir (Some e)]
                                  ∧ res = inl (mkStatus Internal
          "Could not delete access point root directory %q: %v"))
                          ∨ (∃ e, tail = [CallMakeDir target None;
                                          mount None; rootDir None;
                                          CallUnmount target (Some e)]
                                  ∧ res = inl (mkStatus Internal
                                            "Could not unmount %q: %v"))
                          ∨ (∃ e, tail = [CallMakeDir target None;
                                          mount None; rootDir None;
                                          CallUnmount target None;
                                          CallOsRemoveAll target (Some e)]
                                  ∧ res = inl (mkStatus Internal
                                            "Could not delete %q: %v"))
                          ∨ (∃ r, tail = [CallMakeDir target None;
                                          mount None; rootDir None;
                                          CallUnmount target None;
                                          CallOsRemoveAll target None;
                                          CallDeleteAccessPoint ap r]
                                  ∧ res = deleteAnswer r))))).
Proof.
  intros role fs ap target. subst role fs ap target.
  unfold Delete, getCloud.
  destruct (parseVolumeId (DelVolumeId req)) as [[fs sub] ap]. simpl.
  destruct (String.eqb (default EmptyString (DelSecrets req !! RoleArn))
              EmptyString) eqn:Hrole;
    destruct (deleteAccessPointRootDir a) eqn:Hdel.
  all: unfold_del; rewrite ?Hrole; simpl;
    repeat (case_match; rewrite ?Hrole in *; simplify_eq/=);
    rewrite <- ?app_assoc; simpl.
  all: eexists _, _; (split; [reflexivity|]); cbv zeta; pick_call_path.
Qed.

Lemma newCalls_app (h l : list Call) : newCalls h (h ++ l) = l.
Proof. unfold newCalls. apply drop_app_length. Qed.

Ltac split_calls :=
  repeat match goal with
    | H : False |- _ => destruct H
    | H : _ ∧ _ |- _ => destruct H as [? ?]
    | H : _ ∨ _ |- _ => destruct H as [H|H]
    | H : ∃ _, _ |- _ => destruct H as [? H]
    | H : In _ (_ ++ _) |- _ => apply in_app_or in H as [H|H]
    | H : In _ (_ :: _) |- _ => destruct H as [H|H]
    | H : In _ [] |- _ => destruct H
    | H : @eq Call _ _ |- _ =>
        first [discriminate H | progress subst
              | injection H; clear H; intros; subst]
    | H : @eq (list Call) ?l _ |- _ => is_var l; subst l
    | H : @eq (list string) ?l _ |- _ => is_var l; subst l
    end.

Ltac del_paths w a req h :=
  let calls := fresh "calls" in
  let res := fresh "res" in
  let Hrun := fresh "Hrun" in
  let Hp := fresh "Hp" in
  destruct (AccessPointDelete_paths w a req h) as (calls & res & Hrun & Hp);
  cbv zeta in Hp; rewrite Hrun; simpl; rewrite newCalls_app.

(** X26. [Delete] returns [nil] exactly when its last call is one of: the
    deletion of the access point, which succeeded or found no access point;
    or the description of the access point, which found none (the root
    directory was to be removed, and nothing else is then attempted). *)
Theorem AccessPoint_Delete_succeeds_iff (w : DelWorld) (a : Deleter)
    (req : DeleteVolumeRequest) (h : list Call) :
  let run := Delete w a req h in
  run.1 = inr tt
  ↔ ∃ pre ap,
      newCalls h run.2 = pre ++ [CallDescribeAccessPoint ap (inl ErrNotFound)]
      ∨ newCalls h run.2 = pre ++ [CallDeleteAccessPoint ap None]
      ∨ newCalls h run.2 = pre ++ [CallDeleteAccessPoint ap (Some ErrNotFound)].
Proof.
  intros run. subst run. del_paths w a req h.
  split_calls; subst.
  all: repeat match goal with
         | r : option CloudError |- _ => destruct r as [[]|]
         | e : CloudError |- _ => destruct e
         end; simpl.
  all: split;
    [ intros Hr; try discriminate Hr
    | intros (pre & ap' & [Hc|[Hc|Hc]]); simpl in Hc; last_of Hc;
      first [discriminate Hc | reflexivity] ].
  all: match goal with
       | |- ∃ pre ap, ?L = _ ∨ _ =>
           exists (removelast L); eexists; simpl;
           first [ left; reflexivity | right; left; reflexivity
                 | right; right; reflexivity ]
       end.
Qed.

(** X27. The access point is deleted last, and only after everything else
    went well.  When the root directory is to be removed, the deletion
    follows the five successful calls of the removal: the creation of the
    mount-point named after the access point, the mount, the removal of the
    root directory under the mount-point, the unmount and the removal of
    the mount-point; the root directory is the one the description of the
    access point returned.  Otherwise nothing but the assumption of the role
    precedes the deletion. *)
Theorem AccessPoint_Delete_what_precedes_deletion (w : DelWorld)
    (a : Deleter) (req : DeleteVolumeRequest) (h : list Call) (ap : string)
    (r : option CloudError) :
  let run := Delete w a req h in
  In (CallDeleteAccessPoint ap r) (newCalls h run.2) →
  if deleteAccessPointRootDir a
  then ∃ pre info fs opts,
         let target := TempMountPathPrefix +:+ "/" +:+ ap in
         newCalls h run.2
         = pre ++ [ CallMakeDir target None;
                    CallMount fs target "efs" opts None;
                    CallOsRemoveAll (target +:+ AccessPointRootDir info) None;
                    CallUnmount target None;
                    CallOsRemoveAll target None;
                    CallDeleteAccessPoint ap r ]
         ∧ In (CallDescribeAccessPoint ap (inr info)) pre
  else ∃ pre,
         newCalls h run.2 = pre ++ [CallDeleteAccessPoint ap r]
         ∧ ∀ c, In c pre → ∃ role, c = CallNewCloudWithRole role true.
Proof.
  intros run. subst run. del_paths w a req h.
  intros Hin. split_calls; subst; try (simpl in Hin; split_calls).
  all: match goal with H : deleteAccessPointRootDir _ = _ |- _ =>
         rewrite H end.
  all: first
    [ eexists [], _, _, _; split; [reflexivity|]; simpl; by auto
    | eexists [_], _, _, _; split; [reflexivity|]; simpl; by auto
    | eexists [_; _], _, _, _; split; [reflexivity|]; simpl; by auto
    | eexists [_; _; _], _, _, _; split; [reflexivity|]; simpl; by auto
    | eexists []; split; [reflexivity|]; by intros ? []
    | eexists [_]; split; [reflexivity|]; intros ? [<-|[]]; by eexists ].
Qed.

(** The root directory is removed, then the access point. *)
Lemma AccessPoint_Delete_what_precedes_deletion_witness :
  let run := Delete (delWorld None)
               {| delCloud := mockDelCloud None;
                  deleteAccessPointRootDir := true;
                  delMounter := mockDelMounter None |}
               delRequest [] in
  ∃ pre info fs opts,
    let target := TempMountPathPrefix +:+ "/" +:+ "fsap-abcd1234xyz987" in
    newCalls [] run.2
    = pre ++ [ CallMakeDir target None;
               CallMount fs target "efs" opts None;
               CallOsRemoveAll (target +:+ AccessPointRootDir info) None;
               CallUnmount target None;
               CallOsRemoveAll target None;
               CallDeleteAccessPoint "fsap-abcd1234xyz987" None ]
    ∧ In (CallDescribeAccessPoint "fsap-abcd1234xyz987" (inr info)) pre.
Proof.
  apply (AccessPoint_Delete_what_precedes_deletion (delWorld None)
           {| delCloud := mockDelCloud None;
              deleteAccessPointRootDir := true;
              delMounter := mockDelMounter None |}
           delRequest [] "fsap-abcd1234xyz987" None).
  vm_compute. do 6 right. left. reflexivity.
Defined.

(** X28. [Delete] stops at the first call that fails, with two exceptions:
    a failed description of the mount targets is put up with (the
    mount-point is created next), and a failed mount is followed by the
    removal of the mount-point.  In particular a failed removal of the root
    directory is the last call: the filesystem is left mounted. *)
Theorem AccessPoint_Delete_after_failure (w : DelWorld) (a : Deleter)
    (req : DeleteVolumeRequest) (h pre post : list Call) (c : Call) :
  let run := Delete w a req h in
  newCalls h run.2 = pre ++ c :: post →
  callFailed c = true →
  match c with
  | CallDescribeMountTargets _ _ _ =>
      ∃ t r post', post = CallMakeDir t r :: post'
  | CallMount _ t _ _ _ => ∃ r, post = [CallOsRemove t r]
  | _ => post = []
  end.
Proof.
  intros run. subst run. del_paths w a req h. clear Hrun.
  intros Hc Hf. split_calls; subst; simpl in Hc; peel_prefix.
  all: try discriminate Hf; try reflexivity.
  all: by repeat eexists.
Qed.

(** The removal of the root directory fails: it is the fourth and last
    call, and no unmount follows. *)
Lemma AccessPoint_Delete_after_failure_witness :
  let run := Delete (delWorld (Some "os.PathError"))
               {| delCloud := mockDelCloud None;
                  deleteAccessPointRootDir := true;
                  delMounter := mockDelMounter None |}
               delRequest [] in
  let pre := [ CallDescribeAccessPoint "fsap-abcd1234xyz987"
                 (inr {| AccessPointRootDir := "/vol" |});
               CallMakeDir "/var/lib/csi/pv/fsap-abcd1234xyz987" None;
               CallMount "fs-abcd1234" "/var/lib/csi/pv/fsap-abcd1234xyz987"
                 "efs" [ "tls"; "iam" ] None ] in
  let c := CallOsRemoveAll "/var/lib/csi/pv/fsap-abcd1234xyz987/vol"
             (Some "os.PathError") in
  newCalls [] run.2 = pre ++ c :: []
  ∧ callFailed c = true
  ∧ @nil Call = [].
Proof.
  split; [vm_compute; reflexivity|]. split; [reflexivity|].
  apply (AccessPoint_Delete_after_failure (delWorld (Some "os.PathError"))
           {| delCloud := mockDelCloud None;
              deleteAccessPointRootDir := true;
              delMounter := mockDelMounter None |}
           delRequest []
           [ CallDescribeAccessPoint "fsap-abcd1234xyz987"
               (inr {| AccessPointRootDir := "/vol" |});
             CallMakeDir "/var/lib/csi/pv/fsap-abcd1234xyz987" None;
             CallMount "fs-abcd1234" "/var/lib/csi/pv/fsap-abcd1234xyz987"
               "efs" [ "tls"; "iam" ] None ]
           []
           (CallOsRemoveAll "/var/lib/csi/pv/fsap-abcd1234xyz987/vol"
              (Some "os.PathError"))).
  - vm_compute. reflexivity.
  - reflexivity.
Defined.

(** X29. The mount of [Delete] is a mount of the filesystem of the volume
    id, of type ["efs"], on the mount-point named after the access point of
    the volume id.  Its options are [tls] and [iam], followed by the address
    of the mount target when a role is given and the mount targets could be
    described. *)
Theorem AccessPoint_Delete_mount_call (w : DelWorld) (a : Deleter)
    (req : DeleteVolumeRequest) (h : list Call) (fs t ty : string)
    (opts : list string) (r : option OpaqueError) :
  let run := Delete w a req h in
  In (CallMount fs t ty opts r) (newCalls h run.2) →
  fs = (parseVolumeId (DelVolumeId req)).1.1
  ∧ t = TempMountPathPrefix +:+ "/" +:+ (parseVolumeId (DelVolumeId req)).2
  ∧ ty = "efs"
  ∧ (opts = [ "tls"; "iam" ]
     ∨ ∃ mt,
         In (CallDescribeMountTargets fs EmptyString (inr mt))
           (newCalls h run.2)
         ∧ opts = [ "tls"; "iam"; MountTargetIp +:+ "=" +:+ IPAddress mt ])
  ∧ (default EmptyString (DelSecrets req !! RoleArn) = EmptyString
     → opts = [ "tls"; "iam" ]).
Proof.
  intros run. subst run. del_paths w a req h. clear Hrun.
  intros Hin. split_calls; subst; try (simpl in Hin; split_calls).
  all: repeat match goal with
         | x : CloudError + MountTarget |- _ => destruct x
         end.
  all: repeat split; try (by left).
  all: try (right; eexists; split; [|reflexivity]; simpl; by auto).
  all: intros Heq;
    match goal with H : String.eqb _ _ = false |- _ =>
      rewrite Heq in H; discriminate H end.
Qed.

(** No role is given. *)
Lemma AccessPoint_Delete_mount_call_witness :
  let run := Delete (delWorld None)
               {| delCloud := mockDelCloud None;
                  deleteAccessPointRootDir := true;
                  delMounter := mockDelMounter None |}
               delRequest [] in
  "fs-abcd1234" = (parseVolumeId (DelVolumeId delRequest)).1.1
  ∧ "/var/lib/csi/pv/fsap-abcd1234xyz987"
    = TempMountPathPrefix +:+ "/" +:+ (parseVolumeId (DelVolumeId delRequest)).2
  ∧ "efs" = "efs"
  ∧ ([ "tls"; "iam" ] = [ "tls"; "iam" ]
     ∨ ∃ mt,
         In (CallDescribeMountTargets "fs-abcd1234" EmptyString (inr mt))
           (newCalls [] run.2)
         ∧ [ "tls"; "iam" ]
           = [ "tls"; "iam"; MountTargetIp +:+ "=" +:+ IPAddress mt ])
  ∧ (default EmptyString (DelSecrets delRequest !! RoleArn) = EmptyString
     → [ "tls"; "iam" ] = [ "tls"; "iam" ]).
Proof.
  apply (AccessPoint_Delete_mount_call (delWorld None)
           {| delCloud := mockDelCloud None;
              deleteAccessPointRootDir := true;
              delMounter := mockDelMounter None |}
           delRequest [] "fs-abcd1234" "/var/lib/csi/pv/fsap-abcd1234xyz987"
           "efs" [ "tls"; "iam" ] None).
  vm_compute. do 2 right. left. reflexivity.
Defined.

(** X30. An error of [Delete] is [Unauthenticated] or [Internal], and it is
    [Unauthenticated] exactly when the last call is a role that could not be
    assumed, or a description or a deletion of the access point that was
    denied. *)
Theorem AccessPoint_Delete_error_codes (w : DelWorld) (a : Deleter)
    (req : DeleteVolumeRequest) (h : list Call) (s : Status) :
  let run := Delete w a req h in
  run.1 = inl s →
  (code s = Unauthenticated ∨ code s = Internal)
  ∧ (code s = Unauthenticated
     ↔ ∃ pre,
         (∃ role, newCalls h run.2 = pre ++ [CallNewCloudWithRole role false])
         ∨ (∃ ap, newCalls h run.2
                  = pre ++ [CallDescribeAccessPoint ap (inl ErrAccessDenied)])
         ∨ (∃ ap, newCalls h run.2
                  = pre ++ [CallDeleteAccessPoint ap (Some ErrAccessDenied)])).
Proof.
  intros run. subst run. del_paths w a req h. clear Hrun.
  intros Hs. split_calls; subst.
  all: repeat match goal with
         | r : option CloudError |- _ => destruct r as [[]|]
         | e : CloudError |- _ => destruct e
         end; simpl in Hs; simplify_eq/=.
  all: split; [by auto|].
  all: split;
    [ intros Hr; try discriminate Hr
    | intros (pre & [[? Hc]|[[? Hc]|[? Hc]]]); simpl in Hc; last_of Hc;
      first [discriminate Hc | reflexivity] ].
  all: match goal with
       | |- ∃ pre, (∃ _, ?L = _) ∨ _ =>
           exists (removelast L); simpl;
           first [ left; eexists; reflexivity
                 | right; left; eexists; reflexivity
                 | right; right; eexists; reflexivity ]
       end.
Qed.

(** The test "Fail: DeleteVolume fails if access point cannot be
    deleted". *)
Lemma AccessPoint_Delete_error_codes_witness :
  let run := Delete (delWorld None)
               {| delCloud := mockDelCloud (Some (ErrOther "Delete Volume failed"));
                  deleteAccessPointRootDir := false;
                  delMounter := mockDelMounter None |}
               delRequest [] in
  let s := mkStatus Internal "Failed to Delete volume %v: %v" in
  (code s = Unauthenticated ∨ code s = Internal)
  ∧ (code s = Unauthenticated
     ↔ ∃ pre,
         (∃ role, newCalls [] run.2 = pre ++ [CallNewCloudWithRole role false])
         ∨ (∃ ap, newCalls [] run.2
                  = pre ++ [CallDescribeAccessPoint ap (inl ErrAccessDenied)])
         ∨ (∃ ap, newCalls [] run.2
                  = pre ++ [CallDeleteAccessPoint ap (Some ErrAccessDenied)])).
Proof.
  apply (AccessPoint_Delete_error_codes (delWorld None)
           {| delCloud := mockDelCloud (Some (ErrOther "Delete Volume failed"));
              deleteAccessPointRootDir := false;
              delMounter := mockDelMounter None |}
           delRequest []).
  vm_compute. reflexivity.
Defined.

End AccessPointDeletionFacts.
